(** * pyrsa.rdm.calc: computation of representational dissimilarity matrices

    A shallow embedding of [src/pyrsa/rdm/calc.py] and the properties its
    specification states about it.

    Conventions of the embedding.
    - A floating point number is an exact rational, or [None] where NumPy
      would go on with [nan] or [inf] (a division by zero, the mean of an
      empty array) and for everything computed from such a value.  Shapes
      are kept in both cases.
    - [np.sqrt], [np.log] and [np.linalg.inv] are NumPy routines; they are
      parameters of the development.
    - A call either returns ([Ok]) or raises ([Raise]).
    - Functions that assign to attributes of the dataset they are given
      return the dataset as they leave it, next to their outcome. *)

From Stdlib Require Import QArith Qcanon.
From stdpp Require Import gmap strings list fin_maps sorting.

Set Warnings "-register-all".
Set Default Proof Using "Type".

(** ** Outcomes *)

Inductive exn :=
  | ValueError
  | AssertionError
  | KeyError
  | IndexError
  | TypeError
  | NotImplementedError
  | UnboundLocalError
  | LinAlgError
  | RecursionError.

Inductive result (A : Type) :=
  | Ok (a : A)
  | Raise (e : exn).
Arguments Ok {A} a.
Arguments Raise {A} e.

Global Instance exn_eq_dec : EqDecision exn.
Proof. solve_decision. Defined.

Global Instance result_eq_dec {A} `{EqDecision A} : EqDecision (result A).
Proof. solve_decision. Defined.

Global Instance result_ret : MRet result := λ A, Ok.
Global Instance result_bind : MBind result := λ A B f m,
  match m with Ok a => f a | Raise e => Raise e end.
Global Instance result_fmap : FMap result := λ A B f m,
  match m with Ok a => Ok (f a) | Raise e => Raise e end.

(** [for x in l: s = body(x, s)], leaving at the first exception. *)
Fixpoint for_in {A S} (l : list A) (body : A → S → result S) (s : S)
  : result S :=
  match l with
  | [] => Ok s
  | x :: l' => s' ← body x s; for_in l' body s'
  end.

(** [range(lo, hi)] *)
Definition range (lo hi : nat) : list nat := seq lo (hi - lo).

(** [l[k]] and [l[k] = x] on a sequence; out of range raises. *)
Definition getitem {A} (l : list A) (k : nat) : result A :=
  match l !! k with Some x => Ok x | None => Raise IndexError end.

Definition setitem {A} (l : list A) (k : nat) (x : A) : result (list A) :=
  if decide (k < length l) then Ok (<[k := x]> l) else Raise IndexError.

(** [for x in l: out.append(f(x))] *)
Fixpoint mapM {A B} (f : A → result B) (l : list A) : result (list B) :=
  match l with
  | [] => Ok []
  | x :: l' => y ← f x; ys ← mapM f l'; Ok (y :: ys)
  end.

(** ** Numbers *)

Abbreviation float := (option Qc).

Definition fconst (z : Z) : float := Some (Qc_of_Z z).
Definition fnat (n : nat) : float := fconst (Z.of_nat n).

Definition fadd (a b : float) : float := x ← a; y ← b; Some (x + y)%Qc.
Definition fsub (a b : float) : float := x ← a; y ← b; Some (x - y)%Qc.
Definition fmul (a b : float) : float := x ← a; y ← b; Some (x * y)%Qc.
Definition fdiv (a b : float) : float :=
  x ← a; y ← b; if decide (y = 0%Qc) then None else Some (x / y)%Qc.

Definition fsum (v : list float) : float := foldr fadd (fconst 0) v.
Definition fmean (v : list float) : float := fdiv (fsum v) (fnat (length v)).

Definition vadd (x y : list float) : list float := zip_with fadd x y.
Definition vsub (x y : list float) : list float := zip_with fsub x y.
Definition vmul (x y : list float) : list float := zip_with fmul x y.
Definition dot (x y : list float) : float := fsum (vmul x y).

(** ** Two-dimensional arrays

    [shape] is [(length rows, shape1)]; the number of columns is kept
    beside the rows because an array without rows still has one. *)

Record ndarray2 := Mat { shape1 : nat; rows : list (list float) }.

Definition shape0 (a : ndarray2) : nat := length (rows a).

Global Instance ndarray2_eq_dec : EqDecision ndarray2.
Proof. solve_decision. Defined.

Definition np_zeros (n m : nat) : list (list float) :=
  replicate n (replicate m (fconst 0)).

(** ** The pairwise difference engine *)

Definition _calc_pairwise_differences (measurements : ndarray2)
  : result ndarray2 :=
  let n := shape0 measurements in
  let m := shape1 measurements in
  let diff := np_zeros (n * (n - 1) / 2) m in
  '(diff, k) ← for_in (range 0 (shape0 measurements)) (λ i st,
      for_in (range (i + 1) (shape0 measurements)) (λ j '(diff, k),
        xi ← getitem (rows measurements) i;
        xj ← getitem (rows measurements) j;
        diff ← setitem diff k (vsub xi xj);
        Ok (diff, k + 1)) st) (diff, 0);
  Ok (Mat m diff).

(** The canonical enumeration of the pairs of [C] conditions, in the words
    of the specification: [i] from [0] to [C-2], [j] from [i+1] to [C-1],
    one running index. *)
Definition canonical_pairs (C : nat) : list (nat * nat) :=
  i ← seq 0 (C - 1); j ← seq (i + 1) (C - 1 - i); [(i, j)].

Definition row (a : ndarray2) (i : nat) : list float := rows a !!! i.

Definition pair_difference (a : ndarray2) (p : nat * nat) : list float :=
  vsub (row a p.1) (row a p.2).


Definition loop_pairs (n : nat) : list (nat * nat) :=
  i ← range 0 n; j ← range (i + 1) n; [(i, j)].

(** ** More of NumPy *)

Definition fsign (a : float) : float :=
  x ← a;
  if decide (0 < x)%Qc then Some 1%Qc
  else if decide (x < 0)%Qc then Some (- 1)%Qc else Some 0%Qc.

Definition fabs (a : float) : float :=
  x ← a; if decide (x < 0)%Qc then Some (- x)%Qc else Some x.

(** [v / n] *)
Definition vdiv (v : list float) (n : nat) : list float :=
  (λ x, fdiv x (fnat n)) <$> v.

(** [np.empty(n)]: [n] entries that hold nothing yet. *)
Definition np_empty (n : nat) : list float := replicate n None.

(** [l[mask]] for a boolean [mask]. *)
Fixpoint select {A} (mask : list bool) (l : list A) : list A :=
  match mask, l with
  | b :: mask', x :: l' =>
      if b then x :: select mask' l' else select mask' l'
  | _, _ => []
  end.

(** [l[order]] for an array [order] of positions. *)
Definition take_idx {A} (order : list nat) (l : list A) : list A :=
  omap (λ i, l !! i) order.

(** [a.mean(axis=0)] of an array with the rows [rs] and [m] columns. *)
Definition np_mean_axis0 (m : nat) (rs : list (list float)) : list float :=
  (λ c, fmean ((λ r, r !!! c) <$> rs)) <$> seq 0 m.

Definition np_transpose (a : ndarray2) : ndarray2 :=
  Mat (shape0 a) ((λ c, (λ r, r !!! c) <$> rows a) <$> seq 0 (shape1 a)).

(** [a @ b] for two matrices, and for a matrix and a vector. *)
Definition np_matmul (a b : ndarray2) : result ndarray2 :=
  if decide (shape1 a = shape0 b)
  then Ok (Mat (shape1 b)
             ((λ r, (λ c, dot r c) <$> rows (np_transpose b)) <$> rows a))
  else Raise ValueError.

Definition np_matvec (a : ndarray2) (v : list float) : result (list float) :=
  if decide (shape1 a = length v)
  then Ok ((λ r, dot r v) <$> rows a)
  else Raise ValueError.

Definition mat_add (a b : ndarray2) : ndarray2 :=
  Mat (shape1 a) (zip_with vadd (rows a) (rows b)).

(** [np.einsum('ij,ij->i', a, b)].  A first axis of length one is
    broadcast against the other operand; the second axes have to agree. *)
Definition einsum_ij_ij_i (a b : ndarray2) : result (list float) :=
  if decide (shape1 a = shape1 b) then
    if decide (shape0 a = shape0 b) then Ok (zip_with dot (rows a) (rows b))
    else match rows a, rows b with
         | [ra], _ => Ok (dot ra <$> rows b)
         | _, [rb] => Ok ((λ r, dot r rb) <$> rows a)
         | _, _ => Raise ValueError
         end
  else Raise ValueError.

(** [np.einsum('kj,jk->k', a, b)] *)
Definition einsum_kj_jk_k (a b : ndarray2) : result (list float) :=
  einsum_ij_ij_i a (np_transpose b).

(** [np.unique(l)]: the distinct values, sorted. *)
Definition np_unique (l : list Z) : list Z :=
  merge_sort Z.le (remove_dups l).

(** The [counts] of [np.unique(l, return_counts=True)]. *)
Definition count (v : Z) (l : list Z) : nat :=
  length (filter (λ x, x = v) l).

Definition np_unique_counts (l : list Z) : list nat :=
  (λ v, count v l) <$> np_unique l.

(** [np.setdiff1d(l, v)] *)
Definition np_setdiff1d (l : list Z) (v : Z) : list Z :=
  filter (λ x, x ≠ v) (np_unique l).

(** [cv[mask] = vals]: as many values as the mask selects, or one value
    for all of them. *)
Fixpoint put_mask (cv : list Z) (mask : list bool) (vals : list Z)
  : list Z :=
  match cv, mask with
  | c :: cv', true :: mask' =>
      match vals with
      | v :: vals' => v :: put_mask cv' mask' vals'
      | [] => c :: put_mask cv' mask' []
      end
  | c :: cv', false :: mask' => c :: put_mask cv' mask' vals
  | _, _ => cv
  end.

Definition count_true (mask : list bool) : nat :=
  length (filter (λ b, b = true) mask).

Definition mask_assign (cv : list Z) (mask : list bool) (vals : list Z)
  : result (list Z) :=
  if decide (length vals = count_true mask) then Ok (put_mask cv mask vals)
  else match vals with
       | [v] => Ok (put_mask cv mask (replicate (count_true mask) v))
       | _ => Raise ValueError
       end.

(** Results of up to three axes. *)
Inductive ndarray :=
  | Arr0 (x : float)
  | Arr1 (v : list float)
  | Arr2 (m : list (list float))
  | Arr3 (t : list (list (list float))).

Global Instance ndarray_eq_dec : EqDecision ndarray.
Proof. solve_decision. Defined.

(** [np.array([x])] *)
Definition np_array1 (x : ndarray) : result ndarray :=
  match x with
  | Arr0 x => Ok (Arr1 [x])
  | Arr1 v => Ok (Arr2 [v])
  | Arr2 m => Ok (Arr3 [m])
  | Arr3 _ => Raise ValueError
  end.

(** [np.array(rdms).mean(axis=0)] for a list of vectors: the mean of no
    vector at all is a single [nan], vectors of different lengths do not
    make an array. *)
Definition mean_of_vectors (rdms : list (list float)) : result ndarray :=
  match rdms with
  | [] => Ok (Arr0 None)
  | v :: _ =>
      if decide (Forall (λ w, length w = length v) rdms)
      then Ok (Arr1 (np_mean_axis0 (length v) rdms))
      else Raise ValueError
  end.

(** ** Noise specifications *)

Inductive key := KInt (i : Z) | KStr (s : string).

Global Instance key_eq_dec : EqDecision key.
Proof. solve_decision. Defined.

(** What a caller may pass as [noise]: [None], a two-dimensional array, a
    list, a dict, or something that is neither an array nor iterable (a
    number). *)
Inductive noise_spec :=
  | NoNoise
  | NoiseMatrix (a : ndarray2)
  | NoiseList (l : list noise_spec)
  | NoiseDict (d : list (key * noise_spec))
  | NoiseScalar (x : float).

Fixpoint dict_get {V} (d : list (key * V)) (k : key) : option V :=
  match d with
  | [] => None
  | (k', v) :: d' => if decide (k' = k) then Some v else dict_get d' k
  end.

Fixpoint dict_set {V} (d : list (key * V)) (k : key) (v : V)
  : list (key * V) :=
  match d with
  | [] => [(k, v)]
  | (k', v') :: d' =>
      if decide (k' = k) then (k, v) :: d' else (k', v') :: dict_set d' k v
  end.

(** [len(noise)], [noise[i]] and [noise[i] = x] for an integer [i], as a
    list and a dict answer them. *)
Definition noise_len (noise : noise_spec) : result nat :=
  match noise with
  | NoiseList l => Ok (length l)
  | NoiseDict d => Ok (length d)
  | _ => Raise TypeError
  end.

Definition noise_getitem (noise : noise_spec) (i : nat) : result noise_spec :=
  match noise with
  | NoiseList l => getitem l i
  | NoiseDict d =>
      match dict_get d (KInt (Z.of_nat i)) with
      | Some x => Ok x
      | None => Raise KeyError
      end
  | _ => Raise TypeError
  end.

Definition noise_setitem (noise : noise_spec) (i : nat) (x : noise_spec)
  : result noise_spec :=
  match noise with
  | NoiseList l => NoiseList <$> setitem l i x
  | NoiseDict d => Ok (NoiseDict (dict_set d (KInt (Z.of_nat i)) x))
  | _ => Raise TypeError
  end.

Fixpoint noise_depth (noise : noise_spec) : nat :=
  match noise with
  | NoiseList l => S (foldr (λ x, max (noise_depth x)) 0 l)
  | NoiseDict d => S (foldr (λ kx, max (noise_depth kx.2)) 0 d)
  | _ => 0
  end.

(** A loop whose body changes an object in place: the object is returned
    as the loop leaves it, also when the loop is left by an exception. *)
Fixpoint for_state {A S} (l : list A) (body : A → S → S * result unit)
    (s : S) : S * result unit :=
  match l with
  | [] => (s, Ok ())
  | x :: l' =>
      match body x s with
      | (s', Ok _) => for_state l' body s'
      | (s', Raise e) => (s', Raise e)
      end
  end.

(** [_check_noise]; [fuel] bounds the depth of the recursion.  The first
    component is the caller's object after the call. *)
Fixpoint _check_noise_rec (fuel : nat) (noise : noise_spec) (n_channel : nat)
  : noise_spec * result unit :=
  match fuel with
  | 0 => (noise, Raise RecursionError)
  | S fuel =>
      match noise with
      | NoNoise => (noise, Ok ())
      | NoiseMatrix a =>
          if decide (shape0 a = n_channel ∧ shape1 a = n_channel)
          then (noise, Ok ())
          else (noise, Raise AssertionError)
      | NoiseList _ | NoiseDict _ =>
          (* a dict is an [Iterable] as well: the branch for dicts
             further down in the source is never reached *)
          match noise_len noise with
          | Raise e => (noise, Raise e)
          | Ok len =>
              for_state (range 0 len) (λ i noise,
                match noise_getitem noise i with
                | Raise e => (noise, Raise e)
                | Ok x =>
                    let '(x', r) := _check_noise_rec fuel x n_channel in
                    match noise_setitem noise i x' with
                    | Raise e => (noise, Raise e)
                    | Ok noise' => (noise', r)
                    end
                end) noise
          end
      | NoiseScalar _ => (noise, Raise ValueError)
      end
  end.

Definition _check_noise (noise : noise_spec) (n_channel : nat)
  : noise_spec * result unit :=
  _check_noise_rec (S (noise_depth noise)) noise n_channel.

(** ** Datasets and RDMs

    The two containers are collaborators of [calc.py]; what follows holds
    the attributes [calc.py] reads and writes. *)

Inductive pyvalue :=
  | PInt (z : Z)
  | PStr (s : string)
  | PFloats (v : list float)
  | PNoise (noise : noise_spec).

Record Dataset := {
  measurements : ndarray2;
  descriptors : gmap string pyvalue;
  obs_descriptors : gmap string (list Z);
}.

Definition n_channel (dataset : Dataset) : nat :=
  shape1 (measurements dataset).

(** [general_descriptors] is the attribute [descriptors] of an [RDMs]
    object. *)
Record RDMs := {
  dissimilarities : ndarray;
  dissimilarity_measure : string;
  general_descriptors : gmap string pyvalue;
  rdm_descriptors : gmap string pyvalue;
  pattern_descriptors : gmap string (list Z);
}.

(** Modelled from the spec: the constructor of the RDM container, which
    is not part of [calc.py].  It takes the dissimilarity array, the
    measure and the descriptors, and keeps them. *)
Definition RDMs_init (dissimilarities : ndarray)
    (dissimilarity_measure : string)
    (descriptors rdm_descriptors : gmap string pyvalue) : RDMs :=
  {| dissimilarities := dissimilarities;
     dissimilarity_measure := dissimilarity_measure;
     general_descriptors := descriptors;
     rdm_descriptors := rdm_descriptors;
     pattern_descriptors := ∅ |}.

(** [rdm.pattern_descriptors[k] = v], [rdm.descriptors[k] = v] and
    [rdm.rdm_descriptors[k] = v] *)
Definition set_pattern_descriptor (k : string) (v : list Z) (rdm : RDMs)
  : RDMs :=
  {| dissimilarities := dissimilarities rdm;
     dissimilarity_measure := dissimilarity_measure rdm;
     general_descriptors := general_descriptors rdm;
     rdm_descriptors := rdm_descriptors rdm;
     pattern_descriptors := <[k := v]> (pattern_descriptors rdm) |}.

Definition set_descriptor (k : string) (v : pyvalue) (rdm : RDMs) : RDMs :=
  {| dissimilarities := dissimilarities rdm;
     dissimilarity_measure := dissimilarity_measure rdm;
     general_descriptors := <[k := v]> (general_descriptors rdm);
     rdm_descriptors := rdm_descriptors rdm;
     pattern_descriptors := pattern_descriptors rdm |}.

Definition set_rdm_descriptor (k : string) (v : pyvalue) (rdm : RDMs)
  : RDMs :=
  {| dissimilarities := dissimilarities rdm;
     dissimilarity_measure := dissimilarity_measure rdm;
     general_descriptors := general_descriptors rdm;
     rdm_descriptors := <[k := v]> (rdm_descriptors rdm);
     pattern_descriptors := pattern_descriptors rdm |}.

(** Modelled from the spec: the concatenation of the RDM container, which
    is not part of [calc.py]: it merges a sequence of results into one
    collection and preserves their order.  The descriptors are those of
    the first result. *)
Definition stack (a b : ndarray) : result ndarray :=
  match a, b with
  | Arr2 x, Arr2 y => Ok (Arr2 (x ++ y))
  | Arr3 x, Arr3 y => Ok (Arr3 (x ++ y))
  | _, _ => Raise ValueError
  end.

Definition append (rdm rdm_new : RDMs) : result RDMs :=
  d ← stack (dissimilarities rdm) (dissimilarities rdm_new);
  Ok {| dissimilarities := d;
        dissimilarity_measure := dissimilarity_measure rdm;
        general_descriptors := general_descriptors rdm;
        rdm_descriptors := rdm_descriptors rdm;
        pattern_descriptors := pattern_descriptors rdm |}.

Definition concat (rdms : list RDMs) : result RDMs :=
  match rdms with
  | [] => Raise IndexError
  | rdm :: rest => for_in rest (λ rdm_new rdm, append rdm rdm_new) rdm
  end.

(** [dataset.obs_descriptors[k]] *)
Definition obs_descriptor (dataset : Dataset) (k : string)
  : result (list Z) :=
  match obs_descriptors dataset !! k with
  | Some desc => Ok desc
  | None => Raise KeyError
  end.

(** [dataset.obs_descriptors[k] = v] *)
Definition set_obs_descriptor (k : string) (v : list Z) (dataset : Dataset)
  : Dataset :=
  {| measurements := measurements dataset;
     descriptors := descriptors dataset;
     obs_descriptors := <[k := v]> (obs_descriptors dataset) |}.

(** Modelled from the spec: the subsetting operation of the dataset
    container, [subset_obs(key, value) -> dataset], which is not part of
    [calc.py]: a new dataset with the observations whose descriptor [by]
    is one of [value]. *)
Definition subset_obs (dataset : Dataset) (by_ : string) (value : list Z)
  : result Dataset :=
  desc ← obs_descriptor dataset by_;
  let selection := (λ x, bool_decide (x ∈ value)) <$> desc in
  Ok {| measurements :=
          Mat (n_channel dataset)
              (select selection (rows (measurements dataset)));
        descriptors := descriptors dataset;
        obs_descriptors := select selection <$> obs_descriptors dataset |}.

(** Modelled from the spec: the sort operation of the dataset container,
    [sort_by(key)], which is not part of [calc.py].  It reorders the
    observations of the dataset it is called on; equal keys keep their
    order. *)
Fixpoint insert_by (weight : nat → Z) (i : nat) (l : list nat) : list nat :=
  match l with
  | [] => [i]
  | j :: l' =>
      if decide (weight i ≤ weight j)%Z then i :: l
      else j :: insert_by weight i l'
  end.

Definition argsort (desc : list Z) : list nat :=
  foldr (insert_by (λ i, desc !!! i)) [] (seq 0 (length desc)).

Definition sort_by (dataset : Dataset) (by_ : string) : result Dataset :=
  desc ← obs_descriptor dataset by_;
  let order := argsort desc in
  Ok {| measurements :=
          Mat (n_channel dataset)
              (take_idx order (rows (measurements dataset)));
        descriptors := descriptors dataset;
        obs_descriptors := take_idx order <$> obs_descriptors dataset |}.

(** Modelled from the spec: the grouping operation of the dataset
    container, [average_dataset_by], which is not part of [calc.py]: one
    mean measurement vector for each distinct value of the descriptor,
    the values in the order of their first occurrence.  (The channel
    descriptors that come third in the source are used nowhere.) *)
Fixpoint get_unique_unsorted (l : list Z) : list Z :=
  match l with
  | [] => []
  | x :: l' => x :: filter (λ y, y ≠ x) (get_unique_unsorted l')
  end.

Definition average_dataset_by (dataset : Dataset) (by_ : string)
  : result (ndarray2 * list Z) :=
  desc ← obs_descriptor dataset by_;
  let unique_values := get_unique_unsorted desc in
  Ok (Mat (n_channel dataset)
        ((λ v, np_mean_axis0 (n_channel dataset)
                 (select ((λ x, bool_decide (x = v)) <$> desc)
                         (rows (measurements dataset))))
           <$> unique_values),
      unique_values).

(** ** Helpers of the estimators *)

Definition _gen_default_cv_descriptor (dataset : Dataset)
    (descriptor : string) : result (list Z) :=
  desc ← obs_descriptor dataset descriptor;
  let values := np_unique desc in
  let counts := np_unique_counts desc in
  c0 ← getitem counts 0;
  if decide (Forall (λ c, c = c0) counts) then
    let n_repeats := c0 in
    let cv_descriptor := replicate (length desc) 0%Z in
    for_in values (λ i_val cv_descriptor,
        mask_assign cv_descriptor ((λ x, bool_decide (x = i_val)) <$> desc)
                    (Z.of_nat <$> seq 0 n_repeats))
      cv_descriptor
  else Raise AssertionError.

Definition _parse_input (dataset : Dataset) (descriptor : option string)
  : result (ndarray2 * list Z * string) :=
  match descriptor with
  | None =>
      let measurements := measurements dataset in
      Ok (measurements, Z.of_nat <$> seq 0 (shape0 measurements), "pattern")
  | Some descriptor =>
      '(measurements, desc) ← average_dataset_by dataset descriptor;
      Ok (measurements, desc, descriptor)
  end.

Definition _calc_rdm_crossnobis_single (measurements1 measurements2 : ndarray2)
    (noise : ndarray2) : result (list float) :=
  diff_1 ← _calc_pairwise_differences measurements1;
  diff_2 ← _calc_pairwise_differences measurements2;
  diff_2 ← np_matmul noise (np_transpose diff_2);
  rdm ← einsum_kj_jk_k diff_1 diff_2;
  Ok (vdiv rdm (shape1 measurements1)).

(** ** Euclidean and Mahalanobis distance *)

Definition calc_rdm_euclid (dataset : Dataset) (descriptor : option string)
  : result RDMs :=
  '(measurements, desc, descriptor) ← _parse_input dataset descriptor;
  diff ← _calc_pairwise_differences measurements;
  rdm ← einsum_ij_ij_i diff diff;
  let rdm := vdiv rdm (shape1 measurements) in
  d ← np_array1 (Arr1 rdm);
  let rdm := RDMs_init d "euclidean" ∅ (descriptors dataset) in
  Ok (set_pattern_descriptor descriptor desc rdm).

(** In [calc_rdm_mahalanobis] the noise has to be one matrix for
    [noise @ diff.T] to be a matrix product that [einsum] accepts. *)
Definition calc_rdm_mahalanobis (dataset : Dataset)
    (descriptor : option string) (noise : noise_spec) : result RDMs :=
  match noise with
  | NoNoise => calc_rdm_euclid dataset descriptor
  | _ =>
      '(measurements, desc, descriptor) ← _parse_input dataset descriptor;
      match _check_noise noise (n_channel dataset) with
      | (_, Raise e) => Raise e
      | (noise, Ok _) =>
          diff ← _calc_pairwise_differences measurements;
          diff2 ← match noise with
                  | NoiseMatrix a =>
                      np_transpose <$> np_matmul a (np_transpose diff)
                  | NoiseDict _ => Raise TypeError
                  | _ => Raise ValueError
                  end;
          rdm ← einsum_ij_ij_i diff diff2;
          let rdm := vdiv rdm (shape1 measurements) in
          d ← np_array1 (Arr1 rdm);
          let rdm := RDMs_init d "Mahalanobis" ∅ (descriptors dataset) in
          let rdm := set_pattern_descriptor descriptor desc rdm in
          Ok (set_descriptor "noise" (PNoise noise) rdm)
      end
  end.

(** ** The estimators that use [np.sqrt], [np.log] and [np.linalg.inv] *)

Section estimators.

Variable np_sqrt : float → float.
Variable np_log : float → float.
Variable np_linalg_inv : ndarray2 → result ndarray2.

Definition map_array (f : float → float) (a : ndarray2) : ndarray2 :=
  Mat (shape1 a) (map (map f) (rows a)).

(** [a - a.mean(axis=-1, keepdims=True)] *)
Definition center_rows (a : ndarray2) : ndarray2 :=
  Mat (shape1 a) (map (λ r, map (λ x, fsub x (fmean r)) r) (rows a)).

Definition calc_rdm_correlation (dataset : Dataset)
    (descriptor : option string) : result RDMs :=
  '(ma, desc, descriptor) ← _parse_input dataset descriptor;
  let ma := rows (center_rows ma) in
  let ma := map (λ r, map (λ x, fdiv x (np_sqrt (dot r r))) r) ma in
  let rdm := map (λ ri, map (λ rj, fsub (fconst 1) (dot ri rj)) ma) ma in
  d ← np_array1 (Arr2 rdm);
  let rdm := RDMs_init d "correlation" ∅ (descriptors dataset) in
  Ok (set_pattern_descriptor descriptor desc rdm).

Definition _calc_magnitude_cv (measurements : ndarray2)
    (subtract_mean : bool) : result float :=
  let n_observation := shape0 measurements in
  let squared_magnitude_estimates := replicate n_observation (fconst 0) in
  let observation_indices := seq 0 n_observation in
  squared_magnitude_estimates ←
    for_in observation_indices (λ groupA_index squared_magnitude_estimates,
        let groupB_indices :=
          filter (λ i, i ≠ groupA_index) observation_indices in
        groupA_mean ← getitem (rows measurements) groupA_index;
        let groupB_mean :=
          np_mean_axis0 (shape1 measurements)
                        (take_idx groupB_indices (rows measurements)) in
        let groupA_mean :=
          if subtract_mean
          then map (λ x, fsub x (fmean groupA_mean)) groupA_mean
          else groupA_mean in
        let groupB_mean :=
          if subtract_mean
          then map (λ x, fsub x (fmean groupB_mean)) groupB_mean
          else groupB_mean in
        setitem squared_magnitude_estimates groupA_index
                (dot groupA_mean groupB_mean))
      squared_magnitude_estimates;
  let squared_magnitude := fmean squared_magnitude_estimates in
  Ok (fmul (fsign squared_magnitude) (np_sqrt (fabs squared_magnitude))).

Definition calc_rdm_correlation_cv (dataset : Dataset)
    (descriptor : option string) : result RDMs :=
  '(measurement_avgs, desc, descriptor) ← _parse_input dataset descriptor;
  cv_magnitude_centered ←
    mapM (λ d, data_subset ← subset_obs dataset descriptor [d];
               _calc_magnitude_cv (measurements data_subset) true) desc;
  let measurement_avgs_centered := rows (center_rows measurement_avgs) in
  let n_cond := length desc in
  let rdm := np_empty (n_cond * (n_cond - 1) / 2) in
  '(rdm, k) ← for_in (range 0 (n_cond - 1)) (λ i_cond st,
      for_in (range (i_cond + 1) n_cond) (λ j_cond '(rdm, k),
        xi ← getitem measurement_avgs_centered i_cond;
        xj ← getitem measurement_avgs_centered j_cond;
        let corr_numerator := dot xi xj in
        mi ← getitem cv_magnitude_centered i_cond;
        mj ← getitem cv_magnitude_centered j_cond;
        let corr_denominator := fmul mi mj in
        rdm ← setitem rdm k
                (fsub (fconst 1) (fdiv corr_numerator corr_denominator));
        Ok (rdm, k + 1)) st) (rdm, 0);
  d ← np_array1 (Arr1 rdm);
  let rdm := RDMs_init d "correlation_cv" (descriptors dataset) ∅ in
  Ok (set_pattern_descriptor descriptor desc rdm).

(** [np.linalg.inv] is given one matrix in each of its uses; any other
    argument is taken to fail there. *)
Definition inv_of (noise : noise_spec) : result ndarray2 :=
  match noise with
  | NoiseMatrix a => np_linalg_inv a
  | _ => Raise LinAlgError
  end.

(** [(noise is None) or (isinstance(noise, np.ndarray) and noise.ndim == 2)] *)
Definition is_none_or_matrix (noise : noise_spec) : bool :=
  match noise with
  | NoNoise | NoiseMatrix _ => true
  | _ => false
  end.

(** The part of [calc_rdm_crossnobis] behind [dataset.sort_by(descriptor)];
    it reads the dataset and leaves it as it is. *)
Definition crossnobis_sorted (dataset : Dataset) (descriptor : string)
    (noise : noise_spec) (cv_descriptor : string) : result RDMs :=
  cv_folds ← np_unique <$> obs_descriptor dataset cv_descriptor;
  rdms ←
    if is_none_or_matrix noise then
        for_in (range 0 (length cv_folds)) (λ i_fold rdms,
            fold ← getitem cv_folds i_fold;
            data_test ← subset_obs dataset cv_descriptor [fold];
            data_train ← subset_obs dataset cv_descriptor
                                    (np_setdiff1d cv_folds fold);
            '(measurements_train, _) ←
              average_dataset_by data_train descriptor;
            '(measurements_test, _) ←
              average_dataset_by data_test descriptor;
            let n_cond := shape0 measurements_train in
            let rdm := np_empty (n_cond * (n_cond - 1) / 2) in
            '(rdm, k) ← for_in (range 0 (n_cond - 1)) (λ i_cond st,
                for_in (range (i_cond + 1) n_cond) (λ j_cond '(rdm, k),
                  tri ← getitem (rows measurements_train) i_cond;
                  trj ← getitem (rows measurements_train) j_cond;
                  let diff_train := vsub tri trj in
                  tei ← getitem (rows measurements_test) i_cond;
                  tej ← getitem (rows measurements_test) j_cond;
                  let diff_test := vsub tei tej in
                  x ← match noise with
                      | NoiseMatrix a =>
                          w ← np_matvec a diff_test;
                          Ok (fmean (vmul diff_train w))
                      | _ => Ok (fmean (vmul diff_train diff_test))
                      end;
                  rdm ← setitem rdm k x;
                  Ok (rdm, k + 1)) st) (rdm, 0);
            Ok (rdms ++ [rdm])) []
    else
        '(measurements, variances) ←
          for_in (range 0 (length cv_folds)) (λ i_fold '(ms, vs),
              fold ← getitem cv_folds i_fold;
              data ← subset_obs dataset cv_descriptor [fold];
              '(m, _) ← average_dataset_by data descriptor;
              n ← noise_getitem noise i_fold;
              v ← inv_of n;
              Ok (ms ++ [m], vs ++ [v])) ([], []);
        for_in (range 0 (length cv_folds)) (λ i_fold rdms,
            for_in (range (i_fold + 1) (length cv_folds)) (λ j_fold rdms,
              if decide (i_fold ≠ j_fold) then
                mi ← getitem measurements i_fold;
                mj ← getitem measurements j_fold;
                vi ← getitem variances i_fold;
                vj ← getitem variances j_fold;
                precision ← np_linalg_inv (mat_add vi vj);
                rdm ← _calc_rdm_crossnobis_single mi mj precision;
                Ok (rdms ++ [rdm])
              else Ok rdms) rdms) [];
  rdm ← mean_of_vectors rdms;
  d ← np_array1 rdm;
  let rdm := RDMs_init d "crossnobis" ∅ (descriptors dataset) in
  '(_, desc) ← average_dataset_by dataset descriptor;
  let rdm := set_pattern_descriptor descriptor desc rdm in
  let rdm := set_descriptor "noise" (PNoise noise) rdm in
  Ok (set_descriptor "cv_descriptor" (PStr cv_descriptor) rdm).

(** The dataset of the first component is the caller's dataset after the
    call. *)
Definition calc_rdm_crossnobis (dataset : Dataset)
    (descriptor : option string) (noise : noise_spec)
    (cv_descriptor : option string) : Dataset * result RDMs :=
  match _check_noise noise (n_channel dataset) with
  | (_, Raise e) => (dataset, Raise e)
  | (noise, Ok _) =>
      match descriptor with
      | None => (dataset, Raise ValueError)
      | Some descriptor =>
          let injected :=
            match cv_descriptor with
            | None =>
                cv_desc ← _gen_default_cv_descriptor dataset descriptor;
                Ok (set_obs_descriptor "cv_desc" cv_desc dataset, "cv_desc")
            | Some cv_descriptor => Ok (dataset, cv_descriptor)
            end in
          match injected with
          | Raise e => (dataset, Raise e)
          | Ok (dataset, cv_descriptor) =>
              match sort_by dataset descriptor with
              | Raise e => (dataset, Raise e)
              | Ok dataset =>
                  (dataset,
                   crossnobis_sorted dataset descriptor noise cv_descriptor)
              end
          end
      end
  end.

(** ** Poisson *)

Definition shrink (prior_lambda prior_weight x : float) : float :=
  fdiv (fadd x (fmul prior_lambda prior_weight))
       (fadd (fconst 1) prior_weight).

Definition calc_rdm_poisson (dataset : Dataset) (descriptor : option string)
    (prior_lambda prior_weight : float) : result RDMs :=
  '(measurements, desc, descriptor) ← _parse_input dataset descriptor;
  let measurements :=
    map_array (shrink prior_lambda prior_weight) measurements in
  diff ← _calc_pairwise_differences measurements;
  diff_log ← _calc_pairwise_differences (map_array np_log measurements);
  rdm ← einsum_ij_ij_i diff diff_log;
  let rdm := vdiv rdm (shape1 measurements) in
  d ← np_array1 (Arr1 rdm);
  let rdm := RDMs_init d "poisson" ∅ (descriptors dataset) in
  Ok (set_pattern_descriptor descriptor desc rdm).

(** One pass of the loop of [calc_rdm_poisson_cv] over the folds. *)
Definition poisson_cv_fold (dataset : Dataset) (descriptor : string)
    (prior_lambda prior_weight : float) (cv_descriptor : string)
    (cv_folds : list Z) (i_fold : nat) : result (list float) :=
  fold ← getitem cv_folds i_fold;
  data_test ← subset_obs dataset cv_descriptor [fold];
  data_train ← subset_obs dataset cv_descriptor (np_setdiff1d cv_folds fold);
  '(measurements_train, _) ← average_dataset_by data_train descriptor;
  '(measurements_test, _) ← average_dataset_by data_test descriptor;
  let measurements_train :=
    map_array (shrink prior_lambda prior_weight) measurements_train in
  let measurements_test :=
    map_array (shrink prior_lambda prior_weight) measurements_test in
  diff ← _calc_pairwise_differences measurements_train;
  diff_log ← _calc_pairwise_differences (map_array np_log measurements_test);
  rdm ← einsum_ij_ij_i diff diff_log;
  Ok (vdiv rdm (shape1 measurements_train)).

(** The part of [calc_rdm_poisson_cv] behind [dataset.sort_by(descriptor)].
    The name [rdm] is bound by the loop; it is unbound ([None]) before the
    first pass. *)
Definition poisson_cv_sorted (dataset : Dataset) (descriptor : string)
    (prior_lambda prior_weight : float) (cv_descriptor : string)
  : result RDMs :=
  cv_folds ← np_unique <$> obs_descriptor dataset cv_descriptor;
  rdm ← for_in (range 0 (length cv_folds)) (λ i_fold (_ : option (list float)),
      rdm ← poisson_cv_fold dataset descriptor prior_lambda prior_weight
                            cv_descriptor cv_folds i_fold;
      Ok (Some rdm)) None;
  rdm ← match rdm with
        | Some rdm => Ok rdm
        | None => Raise UnboundLocalError
        end;
  d ← np_array1 (Arr1 rdm);
  let rdm := RDMs_init d "poisson_cv" ∅ (descriptors dataset) in
  '(_, desc) ← average_dataset_by dataset descriptor;
  Ok (set_pattern_descriptor descriptor desc rdm).

Definition calc_rdm_poisson_cv (dataset : Dataset)
    (descriptor : option string) (prior_lambda prior_weight : float)
    (cv_descriptor : option string) : Dataset * result RDMs :=
  match descriptor with
  | None => (dataset, Raise ValueError)
  | Some descriptor =>
      let injected :=
        match cv_descriptor with
        | None =>
            cv_desc ← _gen_default_cv_descriptor dataset descriptor;
            Ok (set_obs_descriptor "cv_desc" cv_desc dataset, "cv_desc")
        | Some cv_descriptor => Ok (dataset, cv_descriptor)
        end in
      match injected with
      | Raise e => (dataset, Raise e)
      | Ok (dataset, cv_descriptor) =>
          match sort_by dataset descriptor with
          | Raise e => (dataset, Raise e)
          | Ok dataset =>
              (dataset,
               poisson_cv_sorted dataset descriptor prior_lambda prior_weight
                                 cv_descriptor)
          end
      end
  end.

(** ** [calc_rdm] *)

(** A dataset, or a collection of them (an [Iterable]). *)
Inductive data :=
  | Single (dataset : Dataset)
  | Collection (l : list data).

Definition calc_rdm_single (dataset : Dataset) (method : string)
    (descriptor : option string) (noise : noise_spec)
    (cv_descriptor : option string) (prior_lambda prior_weight : float)
  : Dataset * result RDMs :=
  if decide (method = "euclidean") then
    (dataset, calc_rdm_euclid dataset descriptor)
  else if decide (method = "correlation") then
    (dataset, calc_rdm_correlation dataset descriptor)
  else if decide (method = "correlation_cv") then
    (dataset, calc_rdm_correlation_cv dataset descriptor)
  else if decide (method = "mahalanobis") then
    (dataset, calc_rdm_mahalanobis dataset descriptor noise)
  else if decide (method = "crossnobis") then
    calc_rdm_crossnobis dataset descriptor noise cv_descriptor
  else if decide (method = "crosseuclid") then
    calc_rdm_crossnobis dataset descriptor NoNoise cv_descriptor
  else if decide (method = "poisson") then
    (dataset, calc_rdm_poisson dataset descriptor prior_lambda prior_weight)
  else if decide (method = "poisson_cv") then
    calc_rdm_poisson_cv dataset descriptor prior_lambda prior_weight
                        cv_descriptor
  else (dataset, Raise NotImplementedError).

(** The collection of the first component holds the caller's datasets
    after the call. *)
Fixpoint calc_rdm (dataset : data) (method : string)
    (descriptor : option string) (noise : noise_spec)
    (cv_descriptor : option string) (prior_lambda prior_weight : float)
    {struct dataset} : data * result RDMs :=
  match dataset with
  | Collection l =>
      let '(l, rdms) :=
        (fix loop (l : list data) (i_dat : nat) (rdms : list RDMs)
           : list data * result (list RDMs) :=
           match l with
           | [] => ([], Ok rdms)
           | d :: l' =>
               let '(d, r) :=
                 match noise with
                 | NoNoise =>
                     let '(d, r) :=
                       calc_rdm d method descriptor NoNoise cv_descriptor
                                prior_lambda prior_weight in
                     (d, Some <$> r)
                 | NoiseMatrix _ =>
                     let '(d, r) :=
                       calc_rdm d method descriptor noise cv_descriptor
                                prior_lambda prior_weight in
                     (d, Some <$> r)
                 | NoiseList _ | NoiseDict _ =>
                     match noise_getitem noise i_dat with
                     | Raise e => (d, Raise e)
                     | Ok noise_i =>
                         let '(d, r) :=
                           calc_rdm d method descriptor noise_i cv_descriptor
                                    prior_lambda prior_weight in
                         (d, Some <$> r)
                     end
                 | NoiseScalar _ => (d, Ok None)
                 end in
               match r with
               | Raise e => (d :: l', Raise e)
               | Ok r =>
                   let '(l', rdms) :=
                     loop l' (i_dat + 1) (rdms ++ option_list r) in
                   (d :: l', rdms)
               end
           end) l 0 [] in
      (Collection l, rdms ← rdms; concat rdms)
  | Single dataset =>
      let '(dataset, rdm) :=
        calc_rdm_single dataset method descriptor noise cv_descriptor
                        prior_lambda prior_weight in
      (Single dataset, rdm)
  end.

(** ** [calc_rdm_movie] *)

(** The measurements of a temporal dataset: observation, channel, time. *)
Record TemporalDataset := {
  t_measurements : list (list (list float));
  t_n_channel : nat;
  t_descriptors : gmap string pyvalue;
  t_obs_descriptors : gmap string (list Z);
  time_descriptors : gmap string (list float);
}.

Definition time_descriptor_of (dataset : TemporalDataset) (k : string)
  : result (list float) :=
  match time_descriptors dataset !! k with
  | Some time => Ok time
  | None => Raise KeyError
  end.

Fixpoint unique_times (l : list float) : list float :=
  match l with
  | [] => []
  | x :: l' => x :: filter (λ y, y ≠ x) (unique_times l')
  end.

(** Modelled from the spec: the time binning of the temporal dataset
    container, which is not part of [calc.py]: one time sample for each
    bin, the mean of the samples of the bin, at the mean of their time
    points. *)
Definition bin_time (dataset : TemporalDataset) (by_ : string)
    (bins : list (list float)) : result TemporalDataset :=
  time ← time_descriptor_of dataset by_;
  let t_idx (bin : list float) := (λ t, bool_decide (t ∈ bin)) <$> time in
  Ok {| t_measurements :=
          map (map (λ series,
                 (λ bin, fmean (select (t_idx bin) series)) <$> bins))
              (t_measurements dataset);
        t_n_channel := t_n_channel dataset;
        t_descriptors := t_descriptors dataset;
        t_obs_descriptors := t_obs_descriptors dataset;
        time_descriptors :=
          <[by_ := (λ bin, fmean (select (t_idx bin) time)) <$> bins]>
            (time_descriptors dataset) |}.

(** Modelled from the spec: the split of a temporal dataset along its time
    axis, which is not part of [calc.py]: one temporal dataset for each
    time point, in their order. *)
Definition split_time (dataset : TemporalDataset) (by_ : string)
  : result (list TemporalDataset) :=
  time ← time_descriptor_of dataset by_;
  Ok ((λ t,
        let selection := (λ x, bool_decide (x = t)) <$> time in
        {| t_measurements :=
             map (map (select selection)) (t_measurements dataset);
           t_n_channel := t_n_channel dataset;
           t_descriptors := t_descriptors dataset;
           t_obs_descriptors := t_obs_descriptors dataset;
           time_descriptors := select selection <$> time_descriptors dataset
        |}) <$> unique_times time).

(** Modelled from the spec: the conversion of a temporal dataset to a
    dataset, which is not part of [calc.py]: the time axis is absorbed
    into the observations, time point after time point. *)
Definition convert_to_dataset (dataset : TemporalDataset) (by_ : string)
  : result Dataset :=
  time ← time_descriptor_of dataset by_;
  Ok {| measurements :=
          Mat (t_n_channel dataset)
              (i ← seq 0 (length time);
               map (map (λ series : list float, series !!! i))
                   (t_measurements dataset));
        descriptors := t_descriptors dataset;
        obs_descriptors :=
          (λ desc : list Z, mjoin (replicate (length time) desc))
            <$> t_obs_descriptors dataset |}.

Inductive temporal_data :=
  | TSingle (dataset : TemporalDataset)
  | TCollection (l : list temporal_data).

Definition default_prior_lambda : float := fconst 1.
Definition default_prior_weight : float := fdiv (fconst 1) (fconst 10).

Fixpoint calc_rdm_movie (dataset : temporal_data) (method : string)
    (descriptor : option string) (noise : noise_spec)
    (cv_descriptor : option string) (prior_lambda prior_weight : float)
    (time_descriptor : string) (bins : option (list (list float)))
    {struct dataset} : result RDMs :=
  match dataset with
  | TCollection l =>
      rdms ←
        (fix loop (l : list temporal_data) (i_dat : nat) (rdms : list RDMs)
           : result (list RDMs) :=
           match l with
           | [] => Ok rdms
           | d :: l' =>
               r ← match noise with
                   | NoNoise =>
                       Some <$> calc_rdm_movie d method descriptor NoNoise
                         None default_prior_lambda default_prior_weight
                         "time" None
                   | NoiseMatrix _ =>
                       Some <$> calc_rdm_movie d method descriptor noise
                         None default_prior_lambda default_prior_weight
                         "time" None
                   | NoiseList _ | NoiseDict _ =>
                       noise_i ← noise_getitem noise i_dat;
                       Some <$> calc_rdm_movie d method descriptor noise_i
                         None default_prior_lambda default_prior_weight
                         "time" None
                   | NoiseScalar _ => Ok None
                   end;
               loop l' (i_dat + 1) (rdms ++ option_list r)
           end) l 0 [];
      concat rdms
  | TSingle dataset =>
      '(splited_data, time) ←
        match bins with
        | Some bins =>
            binned_data ← bin_time dataset time_descriptor bins;
            splited_data ← split_time binned_data time_descriptor;
            time ← time_descriptor_of binned_data time_descriptor;
            Ok (splited_data, time)
        | None =>
            splited_data ← split_time dataset time_descriptor;
            time ← time_descriptor_of dataset time_descriptor;
            Ok (splited_data, time)
        end;
      rdms ← for_in splited_data (λ dat rdms,
          dat_single ← convert_to_dataset dat time_descriptor;
          rdm ← (calc_rdm (Single dat_single) method descriptor noise
                          cv_descriptor prior_lambda prior_weight).2;
          Ok (rdms ++ [rdm])) [];
      rdm ← concat rdms;
      Ok (set_rdm_descriptor time_descriptor (PFloats time) rdm)
  end.

End estimators.

(** ** Example data *)

Definition q (n : Z) (d : positive) : float := Some (Q2Qc (n # d)).

(** Four conditions, two channels. *)
Definition square_dataset : Dataset :=
  {| measurements :=
       Mat 2 [[q 0 1; q 0 1]; [q 1 1; q 0 1]; [q 0 1; q 1 1]; [q 1 1; q 1 1]];
     descriptors := ∅;
     obs_descriptors := {[ "conds" := [0; 1; 2; 3]%Z ]} |}.

(** Two conditions, two repeats each, one channel; the observations are
    not in the order of their conditions. *)
Definition repeats_dataset : Dataset :=
  {| measurements := Mat 1 [[q 5 1]; [q 1 1]; [q 7 1]; [q 2 1]];
     descriptors := ∅;
     obs_descriptors :=
       {[ "conds" := [1; 0; 1; 0]%Z; "fold" := [0; 0; 1; 1]%Z ]} |}.

(** No observation, two channels. *)
Definition empty_dataset : Dataset :=
  {| measurements := Mat 2 [];
     descriptors := ∅;
     obs_descriptors := ∅ |}.

(** A dataset that has an observation descriptor of the name ["pattern"]. *)
Definition pattern_dataset : Dataset :=
  {| measurements := Mat 2 [[q 1 1; q 2 1]; [q 3 1; q 5 1]];
     descriptors := ∅;
     obs_descriptors := {[ "pattern" := [0; 1]%Z ]} |}.

Definition identity2 : ndarray2 := Mat 2 [[q 1 1; q 0 1]; [q 0 1; q 1 1]].

(** Two observations, one channel, the time points [0] and [1]. *)
Definition movie_dataset : TemporalDataset :=
  {| t_measurements := [[[q 1 1; q 2 1]]; [[q 3 1; q 5 1]]];
     t_n_channel := 1;
     t_descriptors := ∅;
     t_obs_descriptors := {[ "conds" := [0; 1]%Z ]};
     time_descriptors := {[ "time" := [q 0 1; q 1 1] ]} |}.

(** [repeats_dataset] as [sort_by] leaves it. *)
Definition sorted_repeats_dataset : Dataset :=
  {| measurements := Mat 1 [[q 1 1]; [q 2 1]; [q 5 1]; [q 7 1]];
     descriptors := ∅;
     obs_descriptors :=
       {[ "conds" := [0; 0; 1; 1]%Z; "fold" := [0; 1; 0; 1]%Z ]} |}.


Definition one_1x1 : ndarray2 := Mat 1 [[q 1 1]].

(** ** Notions of the specification *)

(** [mean_m (x_i[m] - x_j[m])^2] over [M] channels. *)
Definition mean_squared_difference (M : nat) (xi xj : list float) : float :=
  fdiv (fsum (map (λ d, fmul d d) (vsub xi xj))) (fnat M).



(** A call that returns. *)
Definition returns {A} (r : result A) : Prop :=
  match r with Ok _ => True | Raise _ => False end.

Global Instance returns_dec {A} (r : result A) : Decision (returns r).
Proof. destruct r; simpl; apply _. Defined.

Global Instance ndarray2_inhabited : Inhabited ndarray2 := populate (Mat 0 []).

(** The first steps of [calc_rdm_crossnobis] and [calc_rdm_poisson_cv]:
    the dataset as the folds are formed on it, and the descriptor that
    holds the folds. *)
Definition fold_setup (dataset : Dataset) (descriptor : string)
    (cv_descriptor : option string) : result (Dataset * string) :=
  '(dataset, cv_descriptor) ←
    match cv_descriptor with
    | None =>
        cv_desc ← _gen_default_cv_descriptor dataset descriptor;
        Ok (set_obs_descriptor "cv_desc" cv_desc dataset, "cv_desc")
    | Some cv_descriptor => Ok (dataset, cv_descriptor)
    end;
  dataset ← sort_by dataset descriptor;
  Ok (dataset, cv_descriptor).









(** The distinct conditions among the observations whose fold is one of
    [value]. *)
Definition conditions_of (conds folds value : list Z) : list Z :=
  get_unique_unsorted
    (select ((λ x, bool_decide (x ∈ value)) <$> folds) conds).

(** Every fold holds every condition, and so do the other folds
    together. *)
Definition complete_design (conds folds : list Z) : Prop :=
  Forall (λ f,
      length (conditions_of conds folds [f])
      = length (get_unique_unsorted conds)
      ∧ length (conditions_of conds folds (np_setdiff1d (np_unique folds) f))
        = length (get_unique_unsorted conds))
    (np_unique folds).

Global Instance complete_design_dec (conds folds : list Z) :
  Decision (complete_design conds folds).
Proof. unfold complete_design. apply _. Defined.

Definition noise_fits (noise : noise_spec) (n_channel : nat) : Prop :=
  match noise with
  | NoNoise => True
  | NoiseMatrix a => shape0 a = n_channel ∧ shape1 a = n_channel
  | _ => False
  end.

Global Instance noise_fits_dec (noise : noise_spec) (n_channel : nat) :
  Decision (noise_fits noise n_channel).
Proof. destruct noise; simpl; apply _. Defined.

(** A rectangular array: every row has [shape1] entries. *)
Definition wf_array (a : ndarray2) : Prop :=
  Forall (λ r, length r = shape1 a) (rows a).

Global Instance wf_array_dec (a : ndarray2) : Decision (wf_array a).
Proof. unfold wf_array. apply _. Defined.

(** [noise · d] *)
Definition apply_noise (a : ndarray2) (d : list float) : list float :=
  (λ r, dot r d) <$> rows a.

(** An RDM whose dissimilarities are one condensed vector over the
    conditions [desc]: the entry of the [k]-th pair [(i, j)] of the
    canonical enumeration is [D (i, j)]. *)
Definition condensed_by (rdm : RDMs) (name : string) (desc : list Z)
    (D : nat * nat → float) : Prop :=
  dissimilarities rdm = Arr2 [map D (canonical_pairs (length desc))]
  ∧ pattern_descriptors rdm !! name = Some desc.

(** The dissimilarity of the patterns [i] and [j] of [x], estimator by
    estimator. *)
Definition euclid_pair (x : ndarray2) (p : nat * nat) : float :=
  mean_squared_difference (shape1 x) (row x p.1) (row x p.2).

Definition mahalanobis_pair (noise : noise_spec) (x : ndarray2)
    (p : nat * nat) : float :=
  match noise with
  | NoiseMatrix a =>
      fdiv (dot (pair_difference x p) (apply_noise a (pair_difference x p)))
           (fnat (shape1 x))
  | _ => euclid_pair x p
  end.






Definition crossnobis_single_pair (precision m1 m2 : ndarray2)
    (p : nat * nat) : float :=
  fdiv (dot (pair_difference m1 p)
            (apply_noise precision (pair_difference m2 p)))
       (fnat (shape1 m1)).



(** The precision of each pair of folds. *)
Definition pair_precisions (np_linalg_inv : ndarray2 → result ndarray2)
    (variances : list ndarray2) (n_folds : nat)
  : result (list (nat * nat * ndarray2)) :=
  mapM (λ fp,
      precision ←
        np_linalg_inv (mat_add (variances !!! fp.1) (variances !!! fp.2));
      Ok (fp, precision)) (canonical_pairs n_folds).

Global Instance pair_array_inhabited : Inhabited (ndarray2 * ndarray2) :=
  populate (Mat 0 [], Mat 0 []).

(** ** Further notions for the properties of the code *)

(** The names that [calc_rdm] knows. *)
Definition methods : list string :=
  ["euclidean"; "correlation"; "correlation_cv"; "mahalanobis";
   "crossnobis"; "crosseuclid"; "poisson"; "poisson_cv"].

(** [np.eye(n)] *)
Definition np_eye (n : nat) : ndarray2 :=
  Mat n ((λ i, (λ j, if decide (i = j) then fconst 1 else fconst 0)
                 <$> seq 0 n) <$> seq 0 n).

(** A noise specification without a dict, at any depth. *)
Fixpoint no_dict (noise : noise_spec) : bool :=
  match noise with
  | NoiseList l => forallb no_dict l
  | NoiseDict _ => false
  | _ => true
  end.

(** What the validation of a noise specification without dicts comes to:
    the first leaf, from left to right, that is a matrix of another shape
    or no matrix decides. *)
Fixpoint check_outcome (n_channel : nat) (noise : noise_spec) : result unit :=
  match noise with
  | NoNoise => Ok ()
  | NoiseMatrix a =>
      if decide (shape0 a = n_channel ∧ shape1 a = n_channel)
      then Ok () else Raise AssertionError
  | NoiseList l =>
      (fix first_failure (l : list noise_spec) : result unit :=
         match l with
         | [] => Ok ()
         | x :: l' =>
             match check_outcome n_channel x with
             | Ok _ => first_failure l'
             | Raise e => Raise e
             end
         end) l
  | NoiseDict _ => Raise KeyError
  | NoiseScalar _ => Raise ValueError
  end.


(** A number that is not negative, or [nan]. *)
Definition not_negative (e : float) : Prop :=
  match e with
  | Some x => (0 ≤ x)%Qc
  | None => True
  end.

(** The noise that [calc_rdm] hands on to the element [i_dat] of a
    collection: a noise that is absent or one matrix as it is, and the
    entry [i_dat] of another one. *)
Definition element_noise (noise : noise_spec) (i_dat : nat)
  : result noise_spec :=
  match noise with
  | NoNoise | NoiseMatrix _ => Ok noise
  | _ => noise_getitem noise i_dat
  end.

Section collections.

Variable np_sqrt : float → float.
Variable np_log : float → float.
Variable np_linalg_inv : ndarray2 → result ndarray2.

(** The loop of [calc_rdm] over the elements of a collection, from the
    element [i_dat] on. *)
Fixpoint collection_loop (method : string) (descriptor : option string)
    (noise : noise_spec) (cv_descriptor : option string)
    (prior_lambda prior_weight : float)
    (l : list data) (i_dat : nat) (rdms : list RDMs)
  : list data * result (list RDMs) :=
  match l with
  | [] => ([], Ok rdms)
  | d :: l' =>
      let '(d, r) :=
        match noise with
        | NoNoise =>
            let '(d, r) :=
              calc_rdm np_sqrt np_log np_linalg_inv d method descriptor
                       NoNoise cv_descriptor prior_lambda prior_weight in
            (d, Some <$> r)
        | NoiseMatrix _ =>
            let '(d, r) :=
              calc_rdm np_sqrt np_log np_linalg_inv d method descriptor
                       noise cv_descriptor prior_lambda prior_weight in
            (d, Some <$> r)
        | NoiseList _ | NoiseDict _ =>
            match noise_getitem noise i_dat with
            | Raise e => (d, Raise e)
            | Ok noise_i =>
                let '(d, r) :=
                  calc_rdm np_sqrt np_log np_linalg_inv d method descriptor
                           noise_i cv_descriptor prior_lambda prior_weight in
                (d, Some <$> r)
            end
        | NoiseScalar _ => (d, Ok None)
        end in
      match r with
      | Raise e => (d :: l', Raise e)
      | Ok r =>
          let '(l', rdms) :=
            collection_loop method descriptor noise cv_descriptor
                            prior_lambda prior_weight l' (i_dat + 1)
                            (rdms ++ option_list r) in
          (d :: l', rdms)
      end
  end.

(** The call of [calc_rdm] for the element [d] at the position [i_dat]
    of a collection. *)
Definition element_call (method : string) (descriptor : option string)
    (noise : noise_spec) (cv_descriptor : option string)
    (prior_lambda prior_weight : float) (i_dat : nat) (d : data)
  : result (data * result RDMs) :=
  n ← element_noise noise i_dat;
  Ok (calc_rdm np_sqrt np_log np_linalg_inv d method descriptor n
               cv_descriptor prior_lambda prior_weight).

End collections.


(** The estimate that [_calc_magnitude_cv] takes the root of: the mean,
    over the observations, of the inner product of the observation and
    the mean of all other observations, each with its own mean over the
    channels subtracted when [subtract_mean] is set. *)
Definition centered (subtract_mean : bool) (v : list float) : list float :=
  if subtract_mean then map (λ x, fsub x (fmean v)) v else v.

Definition squared_magnitude (a : ndarray2) (subtract_mean : bool) : float :=
  fmean ((λ i, dot (centered subtract_mean (row a i))
                   (centered subtract_mean
                      (np_mean_axis0 (shape1 a) (delete i (rows a)))))
           <$> seq 0 (shape0 a)).

(** * Properties *)

Ltac by_compute := apply (bool_decide_unpack _); vm_compute; exact I.

(** ** Loops *)

Lemma for_in_app {A S} (l1 l2 : list A) (body : A → S → result S) (s : S) :
  for_in (l1 ++ l2) body s = (s' ← for_in l1 body s; for_in l2 body s').
Proof.
  revert s. induction l1 as [|x l1 IH]; intros s; simpl; [done|].
  destruct (body x s); simpl; auto.
Qed.

Lemma for_in_ext {A S} (l : list A) (f g : A → S → result S) (s : S) :
  (∀ x s, x ∈ l → f x s = g x s) → for_in l f s = for_in l g s.
Proof.
  revert s. induction l as [|x l IH]; intros s Hfg; simpl; [done|].
  rewrite Hfg by left. destruct (g x s); simpl; [|done].
  apply IH. intros y s' Hy. apply Hfg. by right.
Qed.

Lemma length_range (lo hi : nat) : length (range lo hi) = hi - lo.
Proof. apply length_seq. Qed.

Lemma elem_of_range (lo hi i : nat) : i ∈ range lo hi ↔ lo ≤ i < hi.
Proof. unfold range. rewrite elem_of_seq. lia. Qed.

(** Filling an array from position [k] on, one entry for each item. *)
Lemma for_in_fill {A B} (items : list A) (f : A → B)
    (body : A → list B * nat → result (list B * nat)) (done rest : list B) :
  (∀ x d k, x ∈ items →
     body x (d, k) = (d' ← setitem d k (f x); Ok (d', k + 1))) →
  length items ≤ length rest →
  for_in items body (done ++ rest, length done)
  = Ok ((done ++ map f items) ++ drop (length items) rest,
        length done + length items).
Proof.
  revert done rest.
  induction items as [|x items IH]; intros done rest Hbody Hlen; simpl.
  - by rewrite app_nil_r, drop_0, Nat.add_0_r.
  - destruct rest as [|r rest]; simpl in Hlen; [lia|].
    rewrite Hbody by left. unfold setitem.
    rewrite decide_True by (rewrite length_app; simpl; lia). simpl.
    replace (<[length done:=f x]> (done ++ r :: rest))
      with ((done ++ [f x]) ++ rest).
    2:{ rewrite insert_app_r_alt, Nat.sub_diag by lia. simpl.
        by rewrite <- app_assoc. }
    replace (length done + 1) with (length (done ++ [f x]))
      by (rewrite length_app; simpl; lia).
    rewrite IH.
    + rewrite <- !app_assoc. simpl. do 2 f_equal.
      rewrite length_app. simpl. lia.
    + intros y d k Hy. apply Hbody. by right.
    + lia.
Qed.

Lemma triangle_step (k : nat) : S k * (S k - 1) / 2 = k + k * (k - 1) / 2.
Proof.
  replace (S k * (S k - 1)) with (k * (k - 1) + k * 2).
  - rewrite Nat.div_add by lia. lia.
  - destruct k; simpl; lia.
Qed.

Lemma length_bind_pair {A B} (i : A) (l : list B) :
  length (j ← l; [(i, j)]) = length l.
Proof.
  induction l as [|j l IH]; [done|].
  rewrite bind_cons, length_app, IH. done.
Qed.

Lemma map_bind_pair {B} (g : nat * nat → B) (i : nat) (l : list nat) :
  map g (j ← l; [(i, j)]) = map (λ j, g (i, j)) l.
Proof.
  induction l as [|j l IH]; [done|].
  rewrite bind_cons. simpl. by rewrite IH.
Qed.

Lemma loop_pairs_from_length (n k a : nat) :
  a + k = n →
  length (i ← seq a k; j ← range (i + 1) n; [(i, j)]) = k * (k - 1) / 2.
Proof.
  revert a. induction k as [|k IH]; intros a Hn; [done|].
  rewrite triangle_step. cbn [seq]. rewrite bind_cons, length_app.
  rewrite IH by lia. rewrite length_bind_pair, length_range. lia.
Qed.

(** The loop nest of the source, with the outer loop up to [n] or up to
    [n - 1], visits the pairs in canonical order. *)
Lemma canonical_pairs_loop (n : nat) : canonical_pairs n = loop_pairs n.
Proof.
  unfold canonical_pairs, loop_pairs, range. rewrite Nat.sub_0_r.
  destruct n as [|n]; [done|].
  replace (S n - 1) with n by lia.
  rewrite seq_S, bind_app. simpl.
  replace (S n - (n + 1)) with 0 by lia. simpl. rewrite app_nil_r.
  apply list_bind_ext; [|done]. intros i.
  by replace (S n - (i + 1)) with (n - i) by lia.
Qed.


Lemma canonical_pairs_length (C : nat) :
  length (canonical_pairs C) = C * (C - 1) / 2.
Proof.
  rewrite canonical_pairs_loop. unfold loop_pairs, range.
  rewrite Nat.sub_0_r. by apply loop_pairs_from_length.
Qed.

Lemma elem_of_canonical_pairs (C i j : nat) :
  (i, j) ∈ canonical_pairs C ↔ i < j < C.
Proof.
  unfold canonical_pairs. rewrite list_elem_of_bind. split.
  - intros (i' & Hj & Hi). apply list_elem_of_bind in Hj as (j' & Hij & Hj).
    apply list_elem_of_singleton in Hij. inversion Hij; subst.
    apply elem_of_seq in Hi, Hj. lia.
  - intros Hij. exists i. split; [|apply elem_of_seq; lia].
    apply list_elem_of_bind. exists j. split; [by left|].
    apply elem_of_seq. lia.
Qed.

(** A nest of two loops that writes one entry for each pair. *)
Lemma fill_nest {B} (n : nat) (f : nat * nat → B)
    (body : nat → nat → list B * nat → result (list B * nat))
    (idx : list nat) (done rest : list B) :
  (∀ i j d k, i ∈ idx → j ∈ range (i + 1) n →
     body i j (d, k) = (d' ← setitem d k (f (i, j)); Ok (d', k + 1))) →
  length (i ← idx; j ← range (i + 1) n; [(i, j)]) ≤ length rest →
  for_in idx (λ i st, for_in (range (i + 1) n) (body i) st)
         (done ++ rest, length done)
  = Ok ((done ++ map f (i ← idx; j ← range (i + 1) n; [(i, j)]))
        ++ drop (length (i ← idx; j ← range (i + 1) n; [(i, j)])) rest,
        length done + length (i ← idx; j ← range (i + 1) n; [(i, j)])).
Proof.
  revert done rest.
  induction idx as [|i idx IH]; intros done rest Hbody Hlen.
  - simpl. by rewrite app_nil_r, drop_0, Nat.add_0_r.
  - rewrite bind_cons, length_app, length_bind_pair in *.
    cbn [for_in].
    rewrite (for_in_fill _ (λ j, f (i, j))); cycle 1.
    { intros j d k Hj. apply Hbody; [by left|done]. }
    { lia. }
    cbn [mbind result_bind].
    replace (length done + length (range (i + 1) n))
      with (length (done ++ map (λ j, f (i, j)) (range (i + 1) n)))
      by (by rewrite length_app, length_map).
    rewrite IH; cycle 1.
    { intros i' j d k Hi' Hj. apply Hbody; [by right|done]. }
    { rewrite length_drop. lia. }
    rewrite map_app, map_bind_pair, drop_drop, !length_app, length_map.
    rewrite <- !app_assoc. do 2 f_equal. lia.
Qed.

(** The two shapes of the nest in the source, started on a fresh array of
    [n (n - 1) / 2] entries. *)
Lemma fill_pairs {B} (n : nat) (f : nat * nat → B) (z : B)
    (body : nat → nat → list B * nat → result (list B * nat)) :
  (∀ i j d k, i < j < n →
     body i j (d, k) = (d' ← setitem d k (f (i, j)); Ok (d', k + 1))) →
  for_in (range 0 n) (λ i st, for_in (range (i + 1) n) (body i) st)
         (replicate (n * (n - 1) / 2) z, 0)
  = Ok (map f (canonical_pairs n), n * (n - 1) / 2).
Proof.
  intros Hbody.
  pose proof (fill_nest n f body (range 0 n) []
                (replicate (n * (n - 1) / 2) z)) as H.
  change ([] ++ ?l) with l in H. change (length []) with 0 in H.
  fold (loop_pairs n) in H. rewrite <- canonical_pairs_loop in H.
  rewrite canonical_pairs_length in H. rewrite H; clear H.
  - rewrite drop_ge by (by rewrite length_replicate).
    by rewrite app_nil_r.
  - intros i j d k Hi Hj. apply Hbody.
    apply elem_of_range in Hi, Hj. lia.
  - by rewrite length_replicate.
Qed.


Lemma getitem_row (a : ndarray2) (i : nat) :
  i < shape0 a → getitem (rows a) i = Ok (row a i).
Proof.
  intros Hi. unfold getitem, row.
  destruct (lookup_lt_is_Some_2 (rows a) i Hi) as [x Hx].
  rewrite Hx. by rewrite (list_lookup_total_correct _ _ _ Hx).
Qed.

Lemma getitem_total {A} `{Inhabited A} (l : list A) (i : nat) :
  i < length l → getitem l i = Ok (l !!! i).
Proof.
  intros Hi. unfold getitem.
  destruct (lookup_lt_is_Some_2 l i Hi) as [x Hx].
  rewrite Hx. by rewrite (list_lookup_total_correct _ _ _ Hx).
Qed.

(** ** The pairwise difference engine *)

Lemma pairwise_differences_rows (a : ndarray2) :
  _calc_pairwise_differences a
  = Ok (Mat (shape1 a)
            (map (pair_difference a) (canonical_pairs (shape0 a)))).
Proof.
  unfold _calc_pairwise_differences, np_zeros. cbv zeta.
  rewrite (fill_pairs (shape0 a) (pair_difference a)); [done|].
  intros i j d k Hij.
  rewrite (getitem_row a i), (getitem_row a j) by lia. done.
Qed.


(** ** Euclidean distance *)

Lemma vmul_diag (d : list float) : vmul d d = map (λ x, fmul x x) d.
Proof. induction d as [|x d IH]; simpl; [done|]. by rewrite <- IH. Qed.

Lemma einsum_same (a : ndarray2) :
  einsum_ij_ij_i a a = Ok (map (λ r, dot r r) (rows a)).
Proof.
  unfold einsum_ij_ij_i. rewrite !decide_True by done.
  by rewrite zip_with_diag.
Qed.

Lemma parse_input_shape (dataset : Dataset) (descriptor : option string)
    (x : ndarray2) (desc : list Z) (name : string) :
  _parse_input dataset descriptor = Ok (x, desc, name) →
  shape0 x = length desc ∧ shape1 x = n_channel dataset.
Proof.
  unfold _parse_input, average_dataset_by.
  destruct descriptor as [d|].
  - destruct (obs_descriptor dataset d) as [l|]; simpl; [|done].
    intros [= <- <- <-]. unfold shape0. simpl. by rewrite length_fmap.
  - intros [= <- <- <-]. by rewrite length_fmap, length_seq.
Qed.

Lemma calc_rdm_euclid_patterns (dataset : Dataset)
    (descriptor : option string) (x : ndarray2) (desc : list Z)
    (name : string) :
  _parse_input dataset descriptor = Ok (x, desc, name) →
  calc_rdm_euclid dataset descriptor
  = Ok (set_pattern_descriptor name desc
          (RDMs_init
             (Arr2 [map (λ p, mean_squared_difference (shape1 x)
                                (row x p.1) (row x p.2))
                        (canonical_pairs (shape0 x))])
             "euclidean" ∅ (descriptors dataset))).
Proof.
  intros Hparse. unfold calc_rdm_euclid. rewrite Hparse. simpl.
  rewrite pairwise_differences_rows. simpl.
  rewrite einsum_same. simpl. do 4 f_equal.
  unfold vdiv. rewrite <- !list_fmap_compose. f_equal.
  apply list_fmap_ext. intros _ [i j] _. simpl.
  unfold mean_squared_difference, pair_difference, dot. simpl.
  by rewrite vmul_diag.
Qed.


(** ** The fold partitioner *)

Lemma elem_of_np_unique (x : Z) (l : list Z) : x ∈ np_unique l ↔ x ∈ l.
Proof.
  unfold np_unique. rewrite merge_sort_Permutation. apply elem_of_remove_dups.
Qed.









Lemma np_unique_nonempty (desc : list Z) :
  desc ≠ [] → ∃ v values, np_unique desc = v :: values.
Proof.
  intros Hne. destruct (np_unique desc) as [|v values] eqn:E; [|eauto].
  destruct desc as [|x desc]; [done|].
  assert (x ∈ np_unique (x :: desc)) as Hx
    by (apply elem_of_np_unique; left).
  rewrite E in Hx. by apply not_elem_of_nil in Hx.
Qed.


Lemma gen_default_cv_descriptor_unbalanced (dataset : Dataset)
    (descriptor : string) (desc : list Z) (v w : Z) :
  obs_descriptors dataset !! descriptor = Some desc →
  v ∈ desc → w ∈ desc → count v desc ≠ count w desc →
  _gen_default_cv_descriptor dataset descriptor = Raise AssertionError.
Proof.
  intros Hdesc Hv Hw Hne.
  unfold _gen_default_cv_descriptor, obs_descriptor. rewrite Hdesc.
  cbn [mbind result_bind]. unfold np_unique_counts.
  destruct (np_unique_nonempty desc) as (v0 & values & E).
  { intros ->. by apply not_elem_of_nil in Hv. }
  rewrite E. cbn [fmap list_fmap getitem lookup list_lookup mbind result_bind].
  rewrite decide_False; [done|].
  rewrite <- (fmap_cons (λ v0, count v0 desc)), <- E.
  rewrite Forall_fmap, Forall_forall. intros Hall. apply Hne.
  rewrite <- elem_of_np_unique in Hv, Hw.
  pose proof (Hall v Hv) as H1. pose proof (Hall w Hw) as H2.
  simpl in *. congruence.
Qed.





(** ** The noise validator and keyed mappings *)

(** C7. A keyed mapping of noise matrices is not validated leaf by leaf:
    a dict is an [Iterable], so it is walked with the integers
    [0 .. len-1] as keys, and a mapping whose only leaf conforms raises
    [KeyError].  The same leaf in a list, or under the key [0], is
    accepted. *)
Theorem check_noise_keyed_mapping :
  (_check_noise (NoiseDict [(KStr "a", NoiseMatrix identity2)]) 2).2
  = Raise KeyError
  ∧ (_check_noise (NoiseDict [(KInt 0, NoiseMatrix identity2)]) 2).2 = Ok ()
  ∧ (_check_noise (NoiseList [NoiseMatrix identity2]) 2).2 = Ok ()
  ∧ (_check_noise (NoiseList [NoiseMatrix identity2]) 3).2
    = Raise AssertionError
  ∧ (_check_noise (NoiseScalar (q 1 1)) 2).2 = Raise ValueError.
Proof. repeat split; by_compute. Qed.

(** ** Cross-validated estimators without a descriptor *)

Lemma calc_rdm_crossnobis_no_descriptor
    (np_linalg_inv : ndarray2 → result ndarray2) (dataset : Dataset)
    (noise : noise_spec) (cv_descriptor : option string) :
  ∃ e, calc_rdm_crossnobis np_linalg_inv dataset None noise cv_descriptor
       = (dataset, Raise e).
Proof.
  unfold calc_rdm_crossnobis.
  destruct (_check_noise noise (n_channel dataset)) as [noise' [[]|e]]; eauto.
Qed.

Lemma calc_rdm_poisson_cv_no_descriptor (np_log : float → float)
    (dataset : Dataset) (prior_lambda prior_weight : float)
    (cv_descriptor : option string) :
  calc_rdm_poisson_cv np_log dataset None prior_lambda prior_weight
                      cv_descriptor
  = (dataset, Raise ValueError).
Proof. done. Qed.

(** C2. [calc_rdm_crossnobis] and [calc_rdm_poisson_cv] raise when they
    are called without a descriptor, and leave the dataset as it is.
    [calc_rdm_correlation_cv] does not check its descriptor: on a dataset
    without observations it returns an (empty) RDM, on a dataset with an
    observation descriptor named ["pattern"] it returns an RDM of [nan],
    and on another dataset it fails when the dataset container is asked
    for the descriptor ["pattern"]. *)
Theorem cross_validated_without_descriptor :
  (∀ np_linalg_inv dataset noise cv_descriptor,
      ∃ e, calc_rdm_crossnobis np_linalg_inv dataset None noise cv_descriptor
           = (dataset, Raise e))
  ∧ (∀ np_log dataset prior_lambda prior_weight cv_descriptor,
      calc_rdm_poisson_cv np_log dataset None prior_lambda prior_weight
                          cv_descriptor
      = (dataset, Raise ValueError))
  ∧ (∀ np_sqrt,
      dissimilarities <$> calc_rdm_correlation_cv np_sqrt empty_dataset None
      = Ok (Arr2 [[]]))
  ∧ (∀ np_sqrt,
      dissimilarities <$> calc_rdm_correlation_cv np_sqrt pattern_dataset None
      = Ok (Arr2 [[None]]))
  ∧ (∀ np_sqrt,
      dissimilarities <$> calc_rdm_correlation_cv np_sqrt square_dataset None
      = Raise KeyError).
Proof.
  split; [|split; [|split; [|split]]].
  - apply calc_rdm_crossnobis_no_descriptor.
  - apply calc_rdm_poisson_cv_no_descriptor.
  - intros np_sqrt. by_compute.
  - intros np_sqrt. by_compute.
  - intros np_sqrt. by_compute.
Qed.

(** ** [calc_rdm_movie] on a collection *)

Lemma calc_rdm_movie_collection_settings np_sqrt np_log np_linalg_inv
    (l : list temporal_data) (method : string) (descriptor : option string)
    (noise : noise_spec) (cv_descriptor : option string)
    (prior_lambda prior_weight : float) (time_descriptor : string)
    (bins : option (list (list float))) :
  calc_rdm_movie np_sqrt np_log np_linalg_inv (TCollection l) method
                 descriptor noise cv_descriptor prior_lambda prior_weight
                 time_descriptor bins
  = calc_rdm_movie np_sqrt np_log np_linalg_inv (TCollection l) method
                   descriptor noise None default_prior_lambda
                   default_prior_weight "time" None.
Proof. done. Qed.

(** C8. On a collection, [calc_rdm_movie] calls itself for the elements
    with the method, the descriptor and the noise only: the cross-validation
    descriptor, the prior, the time descriptor and the bins of the caller
    are replaced by the defaults.  With the two time points of
    [movie_dataset] in one bin, the dataset alone gives the one RDM of the
    bin, and the collection that holds it gives two RDMs, one for each
    time point. *)
Theorem calc_rdm_movie_collection_drops_settings :
  (∀ np_sqrt np_log np_linalg_inv l method descriptor noise cv_descriptor
     prior_lambda prior_weight time_descriptor bins,
      calc_rdm_movie np_sqrt np_log np_linalg_inv (TCollection l) method
                     descriptor noise cv_descriptor prior_lambda prior_weight
                     time_descriptor bins
      = calc_rdm_movie np_sqrt np_log np_linalg_inv (TCollection l) method
                       descriptor noise None default_prior_lambda
                       default_prior_weight "time" None)
  ∧ (∀ np_sqrt np_log np_linalg_inv,
      dissimilarities <$>
        calc_rdm_movie np_sqrt np_log np_linalg_inv (TSingle movie_dataset)
                       "euclidean" None NoNoise None default_prior_lambda
                       default_prior_weight "time" (Some [[q 0 1; q 1 1]])
      = Ok (Arr2 [[q 25 4]]))
  ∧ (∀ np_sqrt np_log np_linalg_inv,
      dissimilarities <$>
        calc_rdm_movie np_sqrt np_log np_linalg_inv
                       (TCollection [TSingle movie_dataset])
                       "euclidean" None NoNoise None default_prior_lambda
                       default_prior_weight "time" (Some [[q 0 1; q 1 1]])
      = Ok (Arr2 [[q 4 1]; [q 9 1]])).
Proof.
  split; [|split].
  - intros. apply calc_rdm_movie_collection_settings.
  - intros. by_compute.
  - intros. by_compute.
Qed.

(** ** What a call leaves of its arguments *)














(** ** Cross-validated estimators: the folds *)

Lemma returns_Ok {A} (r : result A) : returns r → ∃ x, r = Ok x.
Proof. destruct r; [eauto|done]. Qed.

Lemma for_in_returns {A S} (l : list A) (body : A → S → result S) (s : S) :
  (∀ x s, x ∈ l → returns (body x s)) → returns (for_in l body s).
Proof.
  revert s. induction l as [|x l IH]; intros s Hbody; [done|]. simpl.
  destruct (returns_Ok (body x s)) as [s' ->]; [apply Hbody; left|].
  simpl. apply IH. intros y s'' Hy. apply Hbody. by right.
Qed.

Lemma range_snoc (n : nat) : range 0 (S n) = range 0 n ++ [n].
Proof. unfold range. rewrite !Nat.sub_0_r. by rewrite seq_S. Qed.

Lemma calc_rdm_poisson_cv_setup (np_log : float → float) (dataset : Dataset)
    (descriptor : string) (prior_lambda prior_weight : float)
    (cv_descriptor : option string) (sorted : Dataset) (c : string) :
  fold_setup dataset descriptor cv_descriptor = Ok (sorted, c) →
  calc_rdm_poisson_cv np_log dataset (Some descriptor) prior_lambda
                      prior_weight cv_descriptor
  = (sorted,
     poisson_cv_sorted np_log sorted descriptor prior_lambda prior_weight c).
Proof.
  unfold fold_setup, calc_rdm_poisson_cv.
  destruct cv_descriptor as [c'|]; simpl.
  - destruct (sort_by dataset descriptor); simpl; [|done]. by intros [= -> ->].
  - destruct (_gen_default_cv_descriptor dataset descriptor); simpl; [|done].
    destruct (sort_by _ descriptor); simpl; [|done]. by intros [= -> ->].
Qed.


Lemma sort_by_key (dataset sorted : Dataset) (d : string) :
  sort_by dataset d = Ok sorted →
  ∃ desc, obs_descriptors sorted !! d = Some desc.
Proof.
  unfold sort_by, obs_descriptor.
  destruct (obs_descriptors dataset !! d) as [desc|] eqn:E; [|done].
  simpl. intros [= <-]. simpl. rewrite lookup_fmap, E. simpl. eauto.
Qed.

Lemma fold_setup_key (dataset sorted : Dataset) (d : string)
    (cv_descriptor : option string) (c : string) :
  fold_setup dataset d cv_descriptor = Ok (sorted, c) →
  ∃ desc, obs_descriptors sorted !! d = Some desc.
Proof.
  unfold fold_setup.
  destruct (match cv_descriptor with
            | Some c' => _ | None => _ end) as [[ds' c']|]; simpl; [|done].
  destruct (sort_by ds' d) as [s|] eqn:E; simpl; [|done].
  intros [= <- <-]. by eapply sort_by_key.
Qed.

(** ** Cross-validated Poisson *)

Lemma poisson_cv_loop_last (f : nat → result (list float)) (n : nat)
    (est : list float) :
  Forall (λ i, returns (f i)) (range 0 n) →
  f n = Ok est →
  for_in (range 0 (S n))
         (λ i (_ : option (list float)), rdm ← f i; Ok (Some rdm)) None
  = Ok (Some est).
Proof.
  intros Hall Hlast. rewrite range_snoc, for_in_app.
  destruct (returns_Ok (for_in (range 0 n)
              (λ i (_ : option (list float)), rdm ← f i; Ok (Some rdm)) None))
    as [s ->].
  - apply for_in_returns. intros i s Hi.
    rewrite Forall_forall in Hall. specialize (Hall i Hi).
    by destruct (f i).
  - simpl. by rewrite Hlast.
Qed.

Lemma poisson_cv_sorted_last_fold (np_log : float → float)
    (sorted : Dataset) (d : string) (prior_lambda prior_weight : float)
    (c : string) (folds desc : list Z) (est : list float) :
  obs_descriptors sorted !! c = Some folds →
  obs_descriptors sorted !! d = Some desc →
  0 < length (np_unique folds) →
  Forall (λ i, returns (poisson_cv_fold np_log sorted d prior_lambda
                          prior_weight c (np_unique folds) i))
         (range 0 (length (np_unique folds) - 1)) →
  poisson_cv_fold np_log sorted d prior_lambda prior_weight c
                  (np_unique folds) (length (np_unique folds) - 1)
  = Ok est →
  poisson_cv_sorted np_log sorted d prior_lambda prior_weight c
  = Ok (set_pattern_descriptor d (get_unique_unsorted desc)
          (RDMs_init (Arr2 [est]) "poisson_cv" ∅ (descriptors sorted))).
Proof.
  intros Hc Hd Hn Hall Hlast.
  unfold poisson_cv_sorted, obs_descriptor. rewrite Hc. simpl.
  destruct (length (np_unique folds)) as [|n] eqn:E; [lia|].
  replace (S n - 1) with n in * by lia.
  rewrite (poisson_cv_loop_last _ n est Hall Hlast). simpl.
  unfold average_dataset_by, obs_descriptor. rewrite Hd. done.
Qed.

(** C10. When the passes of the loop of [calc_rdm_poisson_cv] over the
    folds all return, the dissimilarities of its result are those of the
    last pass alone: the pass whose test side is the last of the sorted
    distinct folds and whose training side is the average over the
    observations of all other folds.  What the earlier passes computed is
    not part of the result. *)
Theorem calc_rdm_poisson_cv_last_fold (np_log : float → float)
    (dataset : Dataset) (descriptor : string)
    (prior_lambda prior_weight : float) (cv_descriptor : option string)
    (sorted : Dataset) (c : string) (folds : list Z) (est : list float) :
  fold_setup dataset descriptor cv_descriptor = Ok (sorted, c) →
  obs_descriptors sorted !! c = Some folds →
  1 < length (np_unique folds) →
  Forall (λ i, returns (poisson_cv_fold np_log sorted descriptor prior_lambda
                          prior_weight c (np_unique folds) i))
         (range 0 (length (np_unique folds) - 1)) →
  poisson_cv_fold np_log sorted descriptor prior_lambda prior_weight c
                  (np_unique folds) (length (np_unique folds) - 1)
  = Ok est →
  dissimilarities <$>
    (calc_rdm_poisson_cv np_log dataset (Some descriptor) prior_lambda
                         prior_weight cv_descriptor).2
  = Ok (Arr2 [est]).
Proof.
  intros Hsetup Hc Hn Hall Hlast.
  rewrite (calc_rdm_poisson_cv_setup _ _ _ _ _ _ _ _ Hsetup). simpl.
  destruct (fold_setup_key _ _ _ _ _ Hsetup) as [desc Hd].
  rewrite (poisson_cv_sorted_last_fold np_log sorted descriptor prior_lambda
             prior_weight c folds desc est); try done. lia.
Qed.

(** ** Crossnobis with noise for each fold *)



Lemma mapM_ext {A B} (f g : A → result B) (l : list A) :
  (∀ x, x ∈ l → f x = g x) → mapM f l = mapM g l.
Proof.
  induction l as [|x l IH]; intros Hfg; simpl; [done|].
  rewrite Hfg by left. rewrite IH; [done|].
  intros y Hy. apply Hfg. by right.
Qed.










(** ** The shape of the dissimilarities *)







Lemma shape0_transpose (a : ndarray2) : shape0 (np_transpose a) = shape1 a.
Proof. unfold shape0. simpl. by rewrite length_fmap, length_seq. Qed.

Lemma shape1_transpose (a : ndarray2) : shape1 (np_transpose a) = shape0 a.
Proof. done. Qed.




(** ** The shape of the dissimilarities: cross-validated estimators *)




Lemma Forall_lookup_total_2 {A} `{Inhabited A} (Q : A → Prop) (l : list A)
    (i : nat) :
  Forall Q l → i < length l → Q (l !!! i).
Proof.
  intros Hall Hi. destruct (lookup_lt_is_Some_2 l i Hi) as [x Hx].
  rewrite (list_lookup_total_correct _ _ _ Hx).
  by eapply Forall_lookup_1.
Qed.



(** *** Cross-validated correlation *)



(** *** Crossnobis, leaving one fold out *)


Lemma length_vsub (x y : list float) (n : nat) :
  length x = n → length y = n → length (vsub x y) = n.
Proof. intros Hx Hy. unfold vsub. rewrite length_zip_with. lia. Qed.


(** *** Cross-validated Poisson *)




(** *** Crossnobis with noise for each fold *)



(** ** The entries of the dissimilarities *)

Lemma map_fmap {A B} (f : A → B) (l : list A) : map f l = f <$> l.
Proof. reflexivity. Qed.

Lemma fmap_seq_lookup_total {A B} `{Inhabited A} (f : A → B) (l : list A) :
  (λ k, f (l !!! k)) <$> seq 0 (length l) = f <$> l.
Proof.
  apply list_eq. intros i. rewrite !list_lookup_fmap.
  destruct (decide (i < length l)) as [Hi|Hi].
  - rewrite lookup_seq_lt by done. simpl.
    destruct (lookup_lt_is_Some_2 l i Hi) as [x Hx]. rewrite Hx. simpl.
    by rewrite (list_lookup_total_correct _ _ _ Hx).
  - rewrite lookup_seq_ge by lia. by rewrite lookup_ge_None_2 by lia.
Qed.

Lemma map_seq_ext {B} (f g : nat → B) (n : nat) :
  (∀ k, k < n → f k = g k) → map f (seq 0 n) = map g (seq 0 n).
Proof.
  intros Hfg. apply list_fmap_ext. intros i k Hk.
  apply lookup_seq in Hk as [-> Hi]. by apply Hfg.
Qed.


(** Rows and columns of a rectangular array. *)
Lemma seq_lookup_total {A} `{Inhabited A} (l : list A) :
  (λ k, l !!! k) <$> seq 0 (length l) = l.
Proof.
  apply list_eq. intros i. rewrite list_lookup_fmap.
  destruct (decide (i < length l)) as [Hi|Hi].
  - rewrite lookup_seq_lt by done. simpl.
    destruct (lookup_lt_is_Some_2 l i Hi) as [x Hx]. rewrite Hx.
    by rewrite (list_lookup_total_correct _ _ _ Hx).
  - rewrite lookup_seq_ge by lia. by rewrite lookup_ge_None_2 by lia.
Qed.

Lemma transpose_column (a : ndarray2) (k : nat) :
  wf_array a → k < shape0 a →
  (λ col : list float, col !!! k) <$> rows (np_transpose a) = row a k.
Proof.
  intros Hwf Hk. unfold np_transpose, row. cbn [rows].
  rewrite <- list_fmap_compose.
  pose proof (Forall_lookup_total_2 (λ r, length r = shape1 a) (rows a) k
                Hwf Hk) as Hlen. simpl in Hlen.
  etrans; [|apply (seq_lookup_total (rows a !!! k))]. rewrite Hlen.
  apply list_fmap_ext. intros i c Hc. simpl.
  by rewrite (list_lookup_total_fmap (λ r : list float, r !!! c) (rows a) k
                Hk).
Qed.

Lemma transpose_transpose (a : ndarray2) :
  wf_array a → rows (np_transpose (np_transpose a)) = rows a.
Proof.
  intros Hwf. unfold np_transpose at 1. cbn [rows].
  rewrite shape1_transpose.
  etrans; [|apply (seq_lookup_total (rows a))]. fold (shape0 a).
  apply list_fmap_ext. intros i k Hk.
  apply lookup_seq in Hk as [-> Hk]. simpl.
  by apply transpose_column.
Qed.

(** [(noise @ diff.T).T]: the noise applied to each row of [diff]. *)
Lemma matmul_transpose (a diff : ndarray2) :
  wf_array diff → shape1 a = shape1 diff →
  np_transpose <$> np_matmul a (np_transpose diff)
  = Ok (Mat (shape0 a) (apply_noise a <$> rows diff)).
Proof.
  intros Hwf Ha. unfold np_matmul.
  rewrite decide_True by (by rewrite shape0_transpose).
  cbn [fmap result_fmap]. f_equal.
  rewrite (transpose_transpose _ Hwf).
  unfold np_transpose at 1. cbn [rows shape1]. f_equal.
  - unfold shape0. cbn [rows]. by rewrite length_fmap.
  - rewrite shape1_transpose. unfold shape0.
    etrans; [|apply (fmap_seq_lookup_total (apply_noise a) (rows diff))].
    apply list_fmap_ext. intros i k Hk.
    apply lookup_seq in Hk as [-> Hk]. simpl. unfold apply_noise.
    rewrite <- list_fmap_compose. apply list_fmap_ext. intros j r _. simpl.
    by rewrite (list_lookup_total_fmap (dot r) (rows diff) i Hk).
Qed.

Lemma einsum_maps {A} (f g : A → list float) (l : list A) (m1 m2 : nat) :
  m1 = m2 →
  einsum_ij_ij_i (Mat m1 (f <$> l)) (Mat m2 (g <$> l))
  = Ok ((λ x, dot (f x) (g x)) <$> l).
Proof.
  intros Hm. unfold einsum_ij_ij_i. cbn [shape1].
  rewrite decide_True by done.
  rewrite decide_True by (unfold shape0; cbn [rows]; by rewrite !length_fmap).
  cbn [rows]. f_equal.
  by rewrite zip_with_fmap_l, zip_with_fmap_r, zip_with_diag.
Qed.

Lemma wf_pairwise_differences (x : ndarray2) :
  wf_array x →
  wf_array (Mat (shape1 x)
              (map (pair_difference x) (canonical_pairs (shape0 x)))).
Proof.
  intros Hwf. unfold wf_array. cbn [rows shape1].
  apply Forall_forall. intros r ([i j] & -> & Hij)%list_elem_of_fmap.
  apply elem_of_canonical_pairs in Hij. unfold pair_difference, row.
  apply length_vsub;
    apply (Forall_lookup_total_2 (λ r, length r = shape1 x));
    try done; unfold shape0 in *; simpl; lia.
Qed.

Lemma calc_rdm_euclid_entries (dataset : Dataset)
    (descriptor : option string) (x : ndarray2) (desc : list Z)
    (name : string) :
  _parse_input dataset descriptor = Ok (x, desc, name) →
  ∃ rdm, calc_rdm_euclid dataset descriptor = Ok rdm
         ∧ condensed_by rdm name desc (euclid_pair x).
Proof.
  intros E. rewrite (calc_rdm_euclid_patterns _ _ _ _ _ E).
  destruct (parse_input_shape _ _ _ _ _ E) as [H0 H1].
  eexists. split; [done|]. split; simpl.
  - by rewrite H0.
  - by rewrite lookup_insert_eq.
Qed.


Lemma calc_rdm_mahalanobis_entries (dataset : Dataset)
    (descriptor : option string) (noise : noise_spec) (x : ndarray2)
    (desc : list Z) (name : string) :
  _parse_input dataset descriptor = Ok (x, desc, name) →
  noise_fits noise (n_channel dataset) →
  wf_array x →
  ∃ rdm, calc_rdm_mahalanobis dataset descriptor noise = Ok rdm
         ∧ condensed_by rdm name desc (mahalanobis_pair noise x).
Proof.
  intros E Hfits Hwf. destruct noise as [|a|l|d|y]; try done.
  { by apply calc_rdm_euclid_entries. }
  destruct Hfits as [Ha0 Ha1]. unfold calc_rdm_mahalanobis. rewrite E.
  destruct (parse_input_shape _ _ _ _ _ E) as [H0 H1].
  cbn [mbind result_bind].
  replace (_check_noise (NoiseMatrix a) (n_channel dataset))
    with (NoiseMatrix a, Ok ()); cycle 1.
  { unfold _check_noise. simpl. by rewrite decide_True. }
  rewrite pairwise_differences_rows. cbn [mbind result_bind].
  rewrite matmul_transpose; cycle 1.
  { by apply wf_pairwise_differences. }
  { cbn [shape1]. congruence. }
  cbn [mbind result_bind rows].
  rewrite !map_fmap, <- list_fmap_compose.
  rewrite einsum_maps by congruence.
  cbn [mbind result_bind np_array1].
  eexists. split; [done|]. split; simpl.
  - rewrite H0. do 2 f_equal. unfold vdiv.
    rewrite <- list_fmap_compose. by apply list_fmap_ext.
  - by rewrite lookup_insert_eq.
Qed.

Lemma parse_input_wf (dataset : Dataset) (descriptor : option string)
    (x : ndarray2) (desc : list Z) (name : string) :
  wf_array (measurements dataset) →
  _parse_input dataset descriptor = Ok (x, desc, name) →
  wf_array x.
Proof.
  intros Hwf. unfold _parse_input, average_dataset_by.
  destruct descriptor as [d|].
  - destruct (obs_descriptor dataset d) as [l|]; simpl; [|done].
    intros [= <- <- <-]. unfold wf_array. simpl.
    apply Forall_forall. intros r (v & -> & _)%list_elem_of_fmap.
    unfold np_mean_axis0. by rewrite length_fmap, length_seq.
  - by intros [= <- <- <-].
Qed.





(** * The theorems at the example data *)


Lemma calc_rdm_poisson_cv_last_fold_witness :
  dissimilarities <$>
    (calc_rdm_poisson_cv (λ x, fmul x x) repeats_dataset (Some "conds")
                         (q 1 1) (q 1 10) (Some "fold")).2
  = Ok (Arr2 [[q 184000 1331]])
  ∧ poisson_cv_fold (λ x, fmul x x) sorted_repeats_dataset "conds" (q 1 1)
                    (q 1 10) "fold" [0; 1]%Z 1
    = Ok [q 184000 1331]
  ∧ poisson_cv_fold (λ x, fmul x x) sorted_repeats_dataset "conds" (q 1 1)
                    (q 1 10) "fold" [0; 1]%Z 0
    = Ok [q 124000 1331].
Proof.
  assert (poisson_cv_fold (λ x, fmul x x) sorted_repeats_dataset "conds"
            (q 1 1) (q 1 10) "fold" [0; 1]%Z 1 = Ok [q 184000 1331]) as Hlast
    by (apply (bool_decide_unpack _); vm_compute; exact I).
  split; [|split; [exact Hlast|]].
  - apply (calc_rdm_poisson_cv_last_fold (λ x, fmul x x) repeats_dataset
             "conds" (q 1 1) (q 1 10) (Some "fold") sorted_repeats_dataset
             "fold" [0; 1; 0; 1]%Z [q 184000 1331]).
    + reflexivity.
    + reflexivity.
    + vm_compute. lia.
    + apply (bool_decide_unpack _). vm_compute. exact I.
    + exact Hlast.
  - apply (bool_decide_unpack _). vm_compute. exact I.
Defined.



(** ** The noise validator on lists *)

Lemma noise_depth_elem (x : noise_spec) (l : list noise_spec) :
  x ∈ l → noise_depth x ≤ foldr (λ x, max (noise_depth x)) 0 l.
Proof.
  induction l as [|y l IH]; [by intros ?%not_elem_of_nil|].
  intros [->|Hx]%elem_of_cons; simpl; [lia|]. specialize (IH Hx). lia.
Qed.

Lemma check_noise_rec_list (fuel n_channel : nat)
    (seen rest : list noise_spec) :
  (∀ x, x ∈ rest →
        _check_noise_rec fuel x n_channel = (x, check_outcome n_channel x)) →
  for_state (seq (length seen) (length rest)) (λ i noise,
      match noise_getitem noise i with
      | Raise e => (noise, Raise e)
      | Ok x =>
          let '(x', r) := _check_noise_rec fuel x n_channel in
          match noise_setitem noise i x' with
          | Raise e => (noise, Raise e)
          | Ok noise' => (noise', r)
          end
      end) (NoiseList (seen ++ rest))
  = (NoiseList (seen ++ rest),
     check_outcome n_channel (NoiseList rest)).
Proof.
  revert seen. induction rest as [|x rest IH]; intros seen Hrec; [done|].
  cbn [length seq for_state noise_getitem].
  unfold getitem. rewrite list_lookup_middle by done.
  rewrite (Hrec x) by left.
  cbn [noise_setitem]. unfold setitem.
  rewrite decide_True by (rewrite length_app; simpl; lia).
  cbn [fmap result_fmap].
  rewrite list_insert_id by (by apply list_lookup_middle).
  cbn [check_outcome].
  destruct (check_outcome n_channel x) as [[]|e] eqn:Ex; [|done].
  specialize (IH (seen ++ [x])).
  rewrite length_app, <- !(assoc_L (++)) in IH. simpl in IH.
  rewrite Nat.add_1_r in IH. apply IH.
  intros y Hy. apply Hrec. by right.
Qed.

Lemma check_noise_rec_outcome (fuel : nat) (noise : noise_spec)
    (n_channel : nat) :
  noise_depth noise < fuel → no_dict noise = true →
  _check_noise_rec fuel noise n_channel
  = (noise, check_outcome n_channel noise).
Proof.
  revert noise. induction fuel as [|fuel IH]; intros noise Hfuel Hplain;
    [lia|].
  destruct noise as [|a|l|d|y]; try done.
  - simpl. by case_decide.
  - cbn [_check_noise_rec noise_len]. unfold range.
    rewrite Nat.sub_0_r.
    apply (check_noise_rec_list fuel n_channel [] l).
    intros x Hx. apply IH.
    + pose proof (noise_depth_elem x l Hx). simpl in Hfuel. lia.
    + simpl in Hplain. rewrite forallb_forall in Hplain.
      apply Hplain. by apply list_elem_of_In.
Qed.

(** X1. [_check_noise] on a noise specification that is built of [None],
    arrays, lists and numbers: the recursion walks the leaves from left
    to right, at any depth, the caller's object is left as it is, and
    the outcome is that of the first leaf that is an array of another
    shape ([AssertionError]) or a number ([ValueError]); when there is
    none the call returns. *)
Theorem check_noise_first_failure (noise : noise_spec) (n_channel : nat) :
  no_dict noise = true →
  _check_noise noise n_channel = (noise, check_outcome n_channel noise).
Proof. intros Hplain. apply check_noise_rec_outcome; [lia|done]. Qed.

Lemma check_noise_first_failure_witness :
  no_dict (NoiseList [NoNoise; NoiseList [NoiseMatrix identity2];
                      NoiseMatrix one_1x1; NoiseScalar (q 1 1)]) = true
  ∧ _check_noise (NoiseList [NoNoise; NoiseList [NoiseMatrix identity2];
                             NoiseMatrix one_1x1; NoiseScalar (q 1 1)]) 2
    = (NoiseList [NoNoise; NoiseList [NoiseMatrix identity2];
                  NoiseMatrix one_1x1; NoiseScalar (q 1 1)],
       Raise AssertionError).
Proof.
  split; [reflexivity|].
  apply (check_noise_first_failure
           (NoiseList [NoNoise; NoiseList [NoiseMatrix identity2];
                       NoiseMatrix one_1x1; NoiseScalar (q 1 1)]) 2).
  reflexivity.
Defined.

(** ** Errors of the dispatcher and of the estimators *)

Section errors.

Variable np_sqrt : float → float.
Variable np_log : float → float.
Variable np_linalg_inv : ndarray2 → result ndarray2.

(** X2. [calc_rdm] on one dataset and a method name that is none of the
    eight it knows raises [NotImplementedError]; the names are compared as
    they are written (["Euclidean"] is not known), and the dataset is left
    as it is. *)
Theorem calc_rdm_unknown_method (dataset : Dataset) (method : string)
    (descriptor : option string) (noise : noise_spec)
    (cv_descriptor : option string) (prior_lambda prior_weight : float) :
  method ∉ methods →
  calc_rdm np_sqrt np_log np_linalg_inv (Single dataset) method descriptor
           noise cv_descriptor prior_lambda prior_weight
  = (Single dataset, Raise NotImplementedError).
Proof.
  intros Hm. unfold methods in Hm.
  repeat (apply not_elem_of_cons in Hm as [? Hm]).
  cbn [calc_rdm]. unfold calc_rdm_single.
  by rewrite !decide_False by done.
Qed.

Lemma parse_input_missing (dataset : Dataset) (d : string) :
  obs_descriptors dataset !! d = None →
  _parse_input dataset (Some d) = Raise KeyError.
Proof.
  intros Hd. unfold _parse_input, average_dataset_by, obs_descriptor.
  by rewrite Hd.
Qed.

Lemma gen_default_cv_descriptor_missing (dataset : Dataset) (d : string) :
  obs_descriptors dataset !! d = None →
  _gen_default_cv_descriptor dataset d = Raise KeyError.
Proof.
  intros Hd. unfold _gen_default_cv_descriptor, obs_descriptor.
  by rewrite Hd.
Qed.

Lemma sort_by_missing (dataset : Dataset) (d : string) :
  obs_descriptors dataset !! d = None →
  sort_by dataset d = Raise KeyError.
Proof. intros Hd. unfold sort_by, obs_descriptor. by rewrite Hd. Qed.

Lemma calc_rdm_crossnobis_missing (dataset : Dataset) (d : string)
    (noise : noise_spec) (cv_descriptor : option string) :
  obs_descriptors dataset !! d = None →
  (_check_noise noise (n_channel dataset)).2 = Ok () →
  calc_rdm_crossnobis np_linalg_inv dataset (Some d) noise cv_descriptor
  = (dataset, Raise KeyError).
Proof.
  intros Hd Hnoise. unfold calc_rdm_crossnobis.
  destruct (_check_noise noise (n_channel dataset)) as [noise' r].
  simpl in Hnoise. subst r.
  destruct cv_descriptor as [c|].
  - by rewrite sort_by_missing.
  - by rewrite gen_default_cv_descriptor_missing.
Qed.

(** X3. A descriptor that the dataset does not have: every method of
    [calc_rdm] raises [KeyError] and leaves the dataset as it is (for
    the methods that validate the noise first, crossnobis, a noise that
    passes the validation is assumed). *)
Theorem calc_rdm_missing_descriptor (dataset : Dataset) (method d : string)
    (noise : noise_spec) (cv_descriptor : option string)
    (prior_lambda prior_weight : float) :
  method ∈ methods →
  obs_descriptors dataset !! d = None →
  (_check_noise noise (n_channel dataset)).2 = Ok () →
  calc_rdm np_sqrt np_log np_linalg_inv (Single dataset) method (Some d)
           noise cv_descriptor prior_lambda prior_weight
  = (Single dataset, Raise KeyError).
Proof.
  intros Hm Hd Hnoise. cbn [calc_rdm]. unfold calc_rdm_single, methods in *.
  assert ((_check_noise NoNoise (n_channel dataset)).2 = Ok ()) as Hnone
    by done.
  repeat (apply elem_of_cons in Hm as [->|Hm]);
    [..|by apply not_elem_of_nil in Hm]; simpl.
  - unfold calc_rdm_euclid. by rewrite parse_input_missing.
  - unfold calc_rdm_correlation. by rewrite parse_input_missing.
  - unfold calc_rdm_correlation_cv. by rewrite parse_input_missing.
  - unfold calc_rdm_mahalanobis, calc_rdm_euclid.
    rewrite parse_input_missing by done. by destruct noise.
  - by rewrite calc_rdm_crossnobis_missing.
  - by rewrite calc_rdm_crossnobis_missing.
  - unfold calc_rdm_poisson. by rewrite parse_input_missing.
  - unfold calc_rdm_poisson_cv. destruct cv_descriptor as [c|].
    + by rewrite sort_by_missing.
    + by rewrite gen_default_cv_descriptor_missing.
Qed.

(** X4. Without a [cv_descriptor], crossnobis and the cross-validated
    Poisson estimator derive the folds from the descriptor; when two
    conditions have different numbers of observations the derivation
    fails, the call raises [AssertionError], and the dataset is left as
    it is (no ['cv_desc'] is written, nothing is sorted). *)
Theorem cross_validated_unbalanced (dataset : Dataset) (d : string)
    (noise : noise_spec) (prior_lambda prior_weight : float)
    (desc : list Z) (v w : Z) :
  obs_descriptors dataset !! d = Some desc →
  v ∈ desc → w ∈ desc → count v desc ≠ count w desc →
  (_check_noise noise (n_channel dataset)).2 = Ok () →
  calc_rdm_crossnobis np_linalg_inv dataset (Some d) noise None
  = (dataset, Raise AssertionError)
  ∧ calc_rdm_poisson_cv np_log dataset (Some d) prior_lambda prior_weight
                        None
    = (dataset, Raise AssertionError).
Proof.
  intros Hd Hv Hw Hne Hnoise.
  pose proof (gen_default_cv_descriptor_unbalanced dataset d desc v w
                Hd Hv Hw Hne) as Hgen.
  split.
  - unfold calc_rdm_crossnobis.
    destruct (_check_noise noise (n_channel dataset)) as [noise' r].
    simpl in Hnoise. subst r. by rewrite Hgen.
  - unfold calc_rdm_poisson_cv. by rewrite Hgen.
Qed.

End errors.

Lemma calc_rdm_unknown_method_witness :
  ("Euclidean" ∉ methods)
  ∧ calc_rdm (λ x, x) (λ x, x) Ok (Single square_dataset) "Euclidean" None
             NoNoise None (q 1 1) (q 1 10)
    = (Single square_dataset, Raise NotImplementedError).
Proof.
  assert ("Euclidean" ∉ methods) as Hm
    by (apply (bool_decide_unpack _); vm_compute; exact I).
  split; [exact Hm|].
  apply (calc_rdm_unknown_method (λ x, x) (λ x, x) Ok square_dataset
           "Euclidean" None NoNoise None (q 1 1) (q 1 10) Hm).
Defined.

Lemma calc_rdm_missing_descriptor_witness :
  calc_rdm (λ x, x) (λ x, x) Ok (Single square_dataset) "crossnobis"
           (Some "stimulus") (NoiseMatrix identity2) None (q 1 1) (q 1 10)
  = (Single square_dataset, Raise KeyError).
Proof.
  apply (calc_rdm_missing_descriptor (λ x, x) (λ x, x) Ok square_dataset
           "crossnobis" "stimulus" (NoiseMatrix identity2) None (q 1 1)
           (q 1 10)).
  - apply (bool_decide_unpack _). vm_compute. exact I.
  - reflexivity.
  - reflexivity.
Defined.

Lemma cross_validated_unbalanced_witness :
  calc_rdm_crossnobis Ok
    {| measurements := Mat 1 [[q 1 1]; [q 2 1]; [q 3 1]];
       descriptors := ∅;
       obs_descriptors := {[ "conds" := [7; 7; 9]%Z ]} |}
    (Some "conds") NoNoise None
  = ({| measurements := Mat 1 [[q 1 1]; [q 2 1]; [q 3 1]];
        descriptors := ∅;
        obs_descriptors := {[ "conds" := [7; 7; 9]%Z ]} |},
     Raise AssertionError)
  ∧ calc_rdm_poisson_cv (λ x, x)
      {| measurements := Mat 1 [[q 1 1]; [q 2 1]; [q 3 1]];
         descriptors := ∅;
         obs_descriptors := {[ "conds" := [7; 7; 9]%Z ]} |}
      (Some "conds") (q 1 1) (q 1 10) None
    = ({| measurements := Mat 1 [[q 1 1]; [q 2 1]; [q 3 1]];
          descriptors := ∅;
          obs_descriptors := {[ "conds" := [7; 7; 9]%Z ]} |},
       Raise AssertionError).
Proof.
  apply (cross_validated_unbalanced (λ x, x) Ok _ "conds" NoNoise (q 1 1)
           (q 1 10) [7; 7; 9]%Z 7%Z 9%Z).
  - reflexivity.
  - apply (bool_decide_unpack _). vm_compute. exact I.
  - apply (bool_decide_unpack _). vm_compute. exact I.
  - vm_compute. lia.
  - reflexivity.
Defined.


(** ** The default folds *)







(** ** The cross-validated magnitude *)

Lemma fmul_None_r (a : float) : fmul a None = None.
Proof. by destruct a. Qed.

Lemma fmean_nil : fmean [] = None.
Proof. by_compute. Qed.

Lemma dot_None (a : float) (x y : list float) :
  dot (a :: x) (None :: y) = None.
Proof. unfold dot, vmul. simpl. by rewrite fmul_None_r. Qed.

(** X6. [_calc_magnitude_cv] on a single observation: the group of the
    other observations is empty, its mean is [nan], and so is the
    magnitude, whatever the observation is and whether the mean is
    subtracted or not. *)
Theorem calc_magnitude_cv_single_observation (np_sqrt : float → float)
    (r : list float) (m : nat) (subtract_mean : bool) :
  r ≠ [] → 0 < m →
  _calc_magnitude_cv np_sqrt (Mat m [r]) subtract_mean = Ok None.
Proof.
  intros Hr Hm. destruct r as [|a r]; [done|]. destruct m as [|m]; [lia|].
  unfold _calc_magnitude_cv, shape0.
  cbn [rows length seq replicate for_in filter list_filter getitem lookup
       list_lookup shape1 take_idx omap list_omap mbind result_bind].
  destruct (decide (0 ≠ 0)) as [?|_]; [done|]. cbn [omap list_omap].
  assert (∃ t, np_mean_axis0 (S m) [] = None :: t) as [t ->].
  { unfold np_mean_axis0. cbn [seq fmap list_fmap]. rewrite fmean_nil.
    by eexists. }
  assert (dot (if subtract_mean
               then map (λ x, fsub x (fmean (a :: r))) (a :: r)
               else a :: r)
              (if subtract_mean
               then map (λ x, fsub x (fmean (None :: t))) (None :: t)
               else None :: t) = None) as ->.
  { destruct subtract_mean; cbn [map]; apply dot_None. }
  unfold setitem. rewrite decide_True by (simpl; lia).
  by cbn [mbind result_bind insert list_insert].
Qed.

Lemma calc_magnitude_cv_single_observation_witness :
  _calc_magnitude_cv (λ x, x) (Mat 2 [[q 3 1; q 4 1]]) false = Ok None.
Proof.
  apply (calc_magnitude_cv_single_observation (λ x, x) [q 3 1; q 4 1] 2
           false); [discriminate|lia].
Defined.

(** ** The entries of the Poisson and the Mahalanobis RDM *)


(** X8. [calc_rdm_mahalanobis] with one noise matrix [N] of the shape
    [n_channel x n_channel], on rectangular measurements: the entry of
    the [k]-th pair [(i, j)] of the canonical enumeration is
    [(x_i - x_j) . N (x_i - x_j) / n_channel] for the patterns [x] that
    [_parse_input] forms; the RDM is labelled ["Mahalanobis"] and keeps
    the noise under the descriptor ["noise"].  Without noise the call is
    the call of [calc_rdm_euclid], and the RDM is labelled
    ["euclidean"]. *)
Theorem calc_rdm_mahalanobis_pairs (dataset : Dataset)
    (descriptor : option string) (a x : ndarray2) (desc : list Z)
    (name : string) :
  _parse_input dataset descriptor = Ok (x, desc, name) →
  wf_array (measurements dataset) →
  shape0 a = n_channel dataset → shape1 a = n_channel dataset →
  (∃ rdm,
      calc_rdm_mahalanobis dataset descriptor (NoiseMatrix a) = Ok rdm
      ∧ condensed_by rdm name desc
          (λ p, fdiv (dot (pair_difference x p)
                          (apply_noise a (pair_difference x p)))
                     (fnat (n_channel dataset)))
      ∧ dissimilarity_measure rdm = "Mahalanobis"
      ∧ general_descriptors rdm !! "noise" = Some (PNoise (NoiseMatrix a)))
  ∧ (∃ rdm,
      calc_rdm_mahalanobis dataset descriptor NoNoise = Ok rdm
      ∧ calc_rdm_euclid dataset descriptor = Ok rdm
      ∧ dissimilarity_measure rdm = "euclidean").
Proof.
  intros E Hwf Ha0 Ha1.
  destruct (parse_input_shape _ _ _ _ _ E) as [H0 H1].
  split.
  - destruct (calc_rdm_mahalanobis_entries dataset descriptor (NoiseMatrix a)
                x desc name E) as (rdm & Hrdm & Hd & Hp).
    { done. }
    { by eapply parse_input_wf. }
    exists rdm. split; [done|]. split.
    { split; [|done]. rewrite Hd. unfold mahalanobis_pair.
      by rewrite H1. }
    revert Hrdm. unfold calc_rdm_mahalanobis. rewrite E.
    cbn [mbind result_bind].
    replace (_check_noise (NoiseMatrix a) (n_channel dataset))
      with (NoiseMatrix a, Ok ()); cycle 1.
    { unfold _check_noise. simpl. by rewrite decide_True. }
    rewrite pairwise_differences_rows. cbn [mbind result_bind].
    destruct (np_matmul _ _) as [w|]; [|done].
    cbn [fmap result_fmap mbind result_bind].
    destruct (einsum_ij_ij_i _ _) as [v|]; [|done].
    cbn [mbind result_bind np_array1]. intros [= <-]. split; [done|].
    simpl. by rewrite lookup_insert_eq.
  - destruct (calc_rdm_euclid_entries dataset descriptor x desc name E)
      as (rdm & Hrdm & _).
    exists rdm. split; [done|]. split; [done|].
    revert Hrdm. rewrite (calc_rdm_euclid_patterns _ _ _ _ _ E).
    by intros [= <-].
Qed.


Lemma calc_rdm_mahalanobis_pairs_witness :
  (∃ rdm,
      calc_rdm_mahalanobis square_dataset None (NoiseMatrix identity2)
      = Ok rdm
      ∧ condensed_by rdm "pattern" [0; 1; 2; 3]%Z
          (λ p, fdiv (dot (pair_difference (measurements square_dataset) p)
                          (apply_noise identity2
                             (pair_difference
                                (measurements square_dataset) p)))
                     (fnat (n_channel square_dataset)))
      ∧ dissimilarity_measure rdm = "Mahalanobis"
      ∧ general_descriptors rdm !! "noise"
        = Some (PNoise (NoiseMatrix identity2)))
  ∧ (∃ rdm,
      calc_rdm_mahalanobis square_dataset None NoNoise = Ok rdm
      ∧ calc_rdm_euclid square_dataset None = Ok rdm
      ∧ dissimilarity_measure rdm = "euclidean").
Proof.
  apply (calc_rdm_mahalanobis_pairs square_dataset None identity2
           (measurements square_dataset) [0; 1; 2; 3]%Z "pattern").
  - reflexivity.
  - apply (bool_decide_unpack _). vm_compute. exact I.
  - reflexivity.
  - reflexivity.
Defined.

(** ** The Euclidean RDM *)

Lemma Qc_square_nonneg (a : Qc) : (0 ≤ a * a)%Qc.
Proof.
  destruct (Qclt_le_dec a 0) as [Hneg|Hpos].
  - replace (a * a)%Qc with ((- a) * (- a))%Qc by ring.
    assert (0 ≤ - a)%Qc as H.
    { replace 0%Qc with (- 0)%Qc by ring.
      apply Qcopp_le_compat. by apply Qclt_le_weak. }
    by apply Qcmult_nonneg_nonneg.
  - by apply Qcmult_nonneg_nonneg.
Qed.

Lemma fsum_squares_not_negative (d : list float) :
  not_negative (fsum (map (λ x, fmul x x) d)).
Proof.
  induction d as [|[a|] d IH]; simpl.
  - rewrite Z2Qc_inj_0. apply Qcle_refl.
  - destruct (fsum (map (λ x, fmul x x) d)) as [s|]; simpl in *; [|done].
    apply Qcplus_nonneg_nonneg; [apply Qc_square_nonneg|done].
  - done.
Qed.

Lemma fdiv_not_negative (a : float) (n : nat) :
  not_negative a → not_negative (fdiv a (fnat n)).
Proof.
  destruct a as [x|]; [|done]. intros Hx. unfold fdiv, fnat, fconst. simpl.
  case_decide as Hn; [done|]. simpl.
  assert (0 < Qc_of_Z (Z.of_nat n))%Qc as Hpos.
  { rewrite <- Z2Qc_inj_0.
    apply (proj1 (Z2Qc_inj_lt 0 (Z.of_nat n))).
    destruct n; [|lia]. exfalso. apply Hn. apply Z2Qc_inj_0. }
  unfold Qcdiv. apply Qcmult_nonneg_nonneg; [done|].
  apply Qclt_le_weak. by apply Qcinv_pos.
Qed.

(** X9. No entry of a Euclidean RDM is negative: each one is [nan] (from
    [nan] in the measurements, or without channels) or a number [>= 0]. *)
Theorem calc_rdm_euclid_not_negative (dataset : Dataset)
    (descriptor : option string) (rdm : RDMs) :
  calc_rdm_euclid dataset descriptor = Ok rdm →
  ∃ v, dissimilarities rdm = Arr2 [v] ∧ Forall not_negative v.
Proof.
  destruct (_parse_input dataset descriptor) as [[[x desc] name]|e] eqn:E.
  - rewrite (calc_rdm_euclid_patterns _ _ _ _ _ E). intros [= <-].
    eexists. split; [done|].
    apply Forall_forall. intros e (p & -> & _)%list_elem_of_fmap.
    unfold mean_squared_difference.
    apply fdiv_not_negative, fsum_squares_not_negative.
  - unfold calc_rdm_euclid. by rewrite E.
Qed.

Lemma calc_rdm_euclid_not_negative_witness :
  ∃ rdm, calc_rdm_euclid square_dataset None = Ok rdm
         ∧ ∃ v, dissimilarities rdm = Arr2 [v] ∧ Forall not_negative v.
Proof.
  eexists. split; [reflexivity|].
  apply (calc_rdm_euclid_not_negative square_dataset None). reflexivity.
Defined.

(** ** The identity as noise *)

Lemma fsum_None (l : list float) : None ∈ l → fsum l = None.
Proof.
  induction l as [|[a|] l IH]; [by intros ?%not_elem_of_nil| |done].
  intros [?|Hl]%elem_of_cons; [done|]. simpl. by rewrite (IH Hl).
Qed.

Lemma dot_None_l (x y : list float) :
  None ∈ x → length x ≤ length y → dot x y = None.
Proof.
  intros Hx Hlen. apply fsum_None. unfold vmul.
  apply list_elem_of_lookup in Hx as [i Hi].
  destruct (lookup_lt_is_Some_2 y i) as [b Hb].
  { apply lookup_lt_Some in Hi. lia. }
  apply (list_elem_of_lookup_2 _ i).
  rewrite lookup_zip_with, Hi. simpl. by rewrite Hb.
Qed.

Lemma dot_None_r (x y : list float) :
  None ∈ y → length y ≤ length x → dot x y = None.
Proof.
  intros Hy Hlen. apply fsum_None. unfold vmul.
  apply list_elem_of_lookup in Hy as [i Hi].
  destruct (lookup_lt_is_Some_2 x i) as [a Ha].
  { apply lookup_lt_Some in Hi. lia. }
  apply (list_elem_of_lookup_2 _ i).
  rewrite lookup_zip_with, Ha, Hi. simpl. by destruct a.
Qed.

Lemma numbers_or_nan (d : list float) : (∃ v, d = Some <$> v) ∨ None ∈ d.
Proof.
  induction d as [|a d IH]; [left; by exists []|].
  destruct a as [a|]; [|right; left].
  destruct IH as [[v ->]|IH]; [left; by exists (a :: v)|right; by right].
Qed.

Lemma fconst_0 : fconst 0 = Some 0%Qc.
Proof. unfold fconst. by rewrite Z2Qc_inj_0. Qed.

Lemma fconst_1 : fconst 1 = Some 1%Qc.
Proof. unfold fconst. by rewrite Z2Qc_inj_1. Qed.

Lemma dot_unit (v : list Qc) (i s : nat) :
  dot ((λ j, if decide (i = j) then fconst 1 else fconst 0)
         <$> seq s (length v)) (Some <$> v)
  = if decide (s ≤ i < s + length v) then (Some <$> v) !!! (i - s)
    else Some 0%Qc.
Proof.
  revert s. induction v as [|a v IH]; intros s.
  - rewrite decide_False by (simpl; lia). exact fconst_0.
  - cbn [length seq fmap list_fmap]. unfold dot, vmul in *.
    cbn [zip_with fsum foldr]. rewrite IH.
    rewrite fconst_0, fconst_1.
    destruct (decide (i = s)) as [->|Hne].
    + rewrite decide_False by lia. rewrite decide_True by lia.
      rewrite Nat.sub_diag. simpl. f_equal. ring.
    + destruct (decide (S s ≤ i < S s + length v)) as [Hi|Hi].
      * rewrite decide_True by lia.
        replace (i - s) with (S (i - S s)) by lia.
        change ((Some a :: (Some <$> v)) !!! S (i - S s))
          with ((Some <$> v) !!! (i - S s)).
        destruct (lookup_lt_is_Some_2 (Some <$> v) (i - S s)) as [y Hy].
        { rewrite length_fmap. lia. }
        rewrite (list_lookup_total_correct _ _ _ Hy).
        apply list_lookup_fmap_Some in Hy as (b & -> & _).
        simpl. f_equal. ring.
      * rewrite decide_False by lia. simpl. f_equal; ring.
Qed.

Lemma apply_noise_eye (d : list float) :
  dot d (apply_noise (np_eye (length d)) d) = dot d d.
Proof.
  unfold apply_noise, np_eye. cbn [rows].
  rewrite <- list_fmap_compose.
  destruct (numbers_or_nan d) as [[v ->]|Hnan].
  - f_equal. rewrite length_fmap.
    etrans; [|apply (seq_lookup_total (Some <$> v))].
    rewrite length_fmap.
    apply list_fmap_ext. intros k i Hi. apply lookup_seq in Hi as [-> Hi].
    simpl. rewrite dot_unit. rewrite decide_True by lia.
    by rewrite Nat.sub_0_r.
  - rewrite (dot_None_l d d) by done.
    assert (0 < length d) as Hlen.
    { destruct d; [by apply not_elem_of_nil in Hnan|simpl; lia]. }
    apply dot_None_r; [|by rewrite length_fmap, length_seq].
    apply list_elem_of_fmap. exists 0. split.
    + simpl. symmetry. apply dot_None_r; [done|].
      by rewrite length_fmap, length_seq.
    + apply elem_of_seq. lia.
Qed.

(** X10. The Mahalanobis RDM with the identity as noise has the
    dissimilarities of the Euclidean RDM, on rectangular measurements:
    entry by entry the same number, or in both no number at all (the
    numbers of this development are exact, and [nan] and [inf] are one
    value).  Only the label (["Mahalanobis"]) and the noise that the RDM
    keeps tell the two results apart. *)
Theorem calc_rdm_mahalanobis_identity (dataset : Dataset)
    (descriptor : option string) :
  wf_array (measurements dataset) →
  returns (_parse_input dataset descriptor) →
  ∃ rdm rdm',
    calc_rdm_mahalanobis dataset descriptor
      (NoiseMatrix (np_eye (n_channel dataset))) = Ok rdm
    ∧ calc_rdm_euclid dataset descriptor = Ok rdm'
    ∧ dissimilarities rdm = dissimilarities rdm'
    ∧ pattern_descriptors rdm = pattern_descriptors rdm'
    ∧ dissimilarity_measure rdm = "Mahalanobis"
    ∧ dissimilarity_measure rdm' = "euclidean".
Proof.
  intros Hwf Hparse.
  destruct (_parse_input dataset descriptor) as [[[x desc] name]|e] eqn:E;
    [|done].
  destruct (parse_input_shape _ _ _ _ _ E) as [H0 H1].
  pose proof (parse_input_wf _ _ _ _ _ Hwf E) as Hx.
  assert (shape0 (np_eye (n_channel dataset)) = n_channel dataset) as He0.
  { unfold shape0, np_eye. cbn [rows]. by rewrite length_fmap, length_seq. }
  destruct (calc_rdm_mahalanobis_entries dataset descriptor
              (NoiseMatrix (np_eye (n_channel dataset))) x desc name E)
    as (rdm & Hrdm & Hd & Hp); [done..|].
  exists rdm. eexists. split; [done|].
  rewrite (calc_rdm_euclid_patterns _ _ _ _ _ E).
  split; [done|].
  assert (pattern_descriptors rdm = <[name := desc]> ∅
          ∧ dissimilarity_measure rdm = "Mahalanobis") as [Hpat Hm].
  { revert Hrdm. unfold calc_rdm_mahalanobis. rewrite E.
    cbn [mbind result_bind].
    destruct (_check_noise _ _) as [n [[]|]]; [|done].
    destruct (_calc_pairwise_differences x); [|done].
    cbn [mbind result_bind].
    destruct (match n with NoiseMatrix a => _ | _ => _ end); [|done].
    cbn [mbind result_bind].
    destruct (einsum_ij_ij_i _ _) as [v|]; [|done].
    cbn [mbind result_bind np_array1]. by intros [= <-]. }
  cbn [dissimilarities set_pattern_descriptor RDMs_init
       pattern_descriptors dissimilarity_measure].
  split; [|done].
  rewrite Hd, H0. do 2 f_equal. rewrite !map_fmap.
  unfold mahalanobis_pair.
  apply list_fmap_ext. intros k [i j] Hk.
  apply list_elem_of_lookup_2, elem_of_canonical_pairs in Hk.
  unfold mean_squared_difference. f_equal.
  assert (length (pair_difference x (i, j)) = shape1 x) as Hlen.
  { unfold pair_difference, row. simpl.
    apply length_vsub;
      apply (Forall_lookup_total_2 (λ r, length r = shape1 x));
      try done; unfold shape0 in *; lia. }
  rewrite <- H1, <- Hlen. rewrite apply_noise_eye.
  unfold dot. by rewrite vmul_diag.
Qed.

Lemma calc_rdm_mahalanobis_identity_witness :
  ∃ rdm rdm',
    calc_rdm_mahalanobis square_dataset None (NoiseMatrix (np_eye 2)) = Ok rdm
    ∧ calc_rdm_euclid square_dataset None = Ok rdm'
    ∧ dissimilarities rdm = dissimilarities rdm'
    ∧ pattern_descriptors rdm = pattern_descriptors rdm'
    ∧ dissimilarity_measure rdm = "Mahalanobis"
    ∧ dissimilarity_measure rdm' = "euclidean".
Proof.
  apply (calc_rdm_mahalanobis_identity square_dataset None).
  - apply (bool_decide_unpack _). vm_compute. exact I.
  - exact I.
Defined.

(** ** [calc_rdm] on a collection *)

Section collection.

Variable np_sqrt : float → float.
Variable np_log : float → float.
Variable np_linalg_inv : ndarray2 → result ndarray2.
Variable method : string.
Variable descriptor : option string.
Variable noise : noise_spec.
Variable cv_descriptor : option string.
Variable prior_lambda prior_weight : float.

Lemma calc_rdm_collection_loop (l : list data) :
  calc_rdm np_sqrt np_log np_linalg_inv (Collection l) method descriptor
           noise cv_descriptor prior_lambda prior_weight
  = let '(l, rdms) :=
      collection_loop np_sqrt np_log np_linalg_inv method descriptor noise
                      cv_descriptor prior_lambda prior_weight l 0 [] in
    (Collection l, rdms ← rdms; concat rdms).
Proof.
  cbn [calc_rdm].
  match goal with
  | |- (let '(_, _) := ?loop l 0 [] in _) = _ =>
      assert (∀ i rdms, loop l i rdms
                = collection_loop np_sqrt np_log np_linalg_inv method
                    descriptor noise cv_descriptor prior_lambda prior_weight
                    l i rdms) as ->
  end; [|done].
  induction l as [|d l IH]; intros i rdms; [done|].
  cbn -[noise_getitem calc_rdm].
  destruct noise as [|a|ns|dd|y];
    repeat match goal with
    | |- context [noise_getitem ?n ?i] => destruct (noise_getitem n i)
    | |- context [calc_rdm ?a1 ?a2 ?a3 d ?m ?de ?n ?cv ?pl ?pw] =>
        destruct (calc_rdm a1 a2 a3 d m de n cv pl pw) as [? [?|?]]
    end; cbn -[noise_getitem calc_rdm]; rewrite ?IH; done.
Qed.

Local Abbreviation call :=
  (element_call np_sqrt np_log np_linalg_inv method descriptor noise
                cv_descriptor prior_lambda prior_weight).

Lemma collection_loop_step (d : data) (l : list data) (i : nat)
    (rdms : list RDMs) :
  (∀ y, noise ≠ NoiseScalar y) →
  collection_loop np_sqrt np_log np_linalg_inv method descriptor noise
                  cv_descriptor prior_lambda prior_weight (d :: l) i rdms
  = match call i d with
    | Raise e => (d :: l, Raise e)
    | Ok (d', Raise e) => (d' :: l, Raise e)
    | Ok (d', Ok r) =>
        let '(l', rdms) :=
          collection_loop np_sqrt np_log np_linalg_inv method descriptor
                          noise cv_descriptor prior_lambda prior_weight
                          l (i + 1) (rdms ++ [r]) in
        (d' :: l', rdms)
    end.
Proof.
  intros Hnoise. unfold element_call, element_noise.
  destruct noise as [|a|ns|dd|y]; try (by destruct (Hnoise y));
    cbn -[noise_getitem calc_rdm];
    repeat match goal with
    | |- context [noise_getitem ?n ?i] =>
        destruct (noise_getitem n i); cbn -[noise_getitem calc_rdm]
    | |- context [calc_rdm ?a1 ?a2 ?a3 d ?m ?de ?n ?cv ?pl ?pw] =>
        destruct (calc_rdm a1 a2 a3 d m de n cv pl pw) as [? [?|?]];
        cbn -[noise_getitem calc_rdm]
    end; done.
Qed.

Lemma collection_loop_returns (l : list data) (outs : list (data * RDMs))
    (i : nat) (rdms : list RDMs) :
  (∀ y, noise ≠ NoiseScalar y) →
  Forall2 (λ id out, call id.1 id.2 = Ok (out.1, Ok out.2))
          (zip (seq i (length l)) l) outs →
  collection_loop np_sqrt np_log np_linalg_inv method descriptor noise
                  cv_descriptor prior_lambda prior_weight l i rdms
  = (outs.*1, Ok (rdms ++ outs.*2)).
Proof.
  intros Hnoise. revert outs i rdms.
  induction l as [|d l IH]; intros outs i rdms Hall.
  - apply Forall2_nil_inv_l in Hall as ->. simpl. by rewrite app_nil_r.
  - cbn [length seq zip zip_with] in Hall.
    apply Forall2_cons_inv_l in Hall as ([d' r] & outs' & Hd & Hall & ->).
    simpl in Hd. rewrite collection_loop_step, Hd by done.
    rewrite Nat.add_1_r, (IH outs') by done.
    simpl. by rewrite <- app_assoc.
Qed.

Lemma collection_loop_raises (l1 l2 : list data) (d d' : data) (e : exn)
    (outs : list (data * RDMs)) (i : nat) (rdms : list RDMs) :
  (∀ y, noise ≠ NoiseScalar y) →
  Forall2 (λ id out, call id.1 id.2 = Ok (out.1, Ok out.2))
          (zip (seq i (length l1)) l1) outs →
  call (i + length l1) d = Raise e ∧ d' = d
  ∨ call (i + length l1) d = Ok (d', Raise e) →
  collection_loop np_sqrt np_log np_linalg_inv method descriptor noise
                  cv_descriptor prior_lambda prior_weight (l1 ++ d :: l2)
                  i rdms
  = (outs.*1 ++ d' :: l2, Raise e).
Proof.
  intros Hnoise. revert outs i rdms.
  induction l1 as [|d1 l1 IH]; intros outs i rdms Hall Hd.
  - apply Forall2_nil_inv_l in Hall as ->. cbn [app length fmap list_fmap] in *.
    rewrite Nat.add_0_r in Hd. rewrite collection_loop_step by done.
    by destruct Hd as [[-> ->]| ->].
  - cbn [length seq zip zip_with] in Hall.
    apply Forall2_cons_inv_l in Hall as ([d1' r] & outs' & Hd1 & Hall & ->).
    simpl in Hd1. cbn [app]. rewrite collection_loop_step, Hd1 by done.
    rewrite Nat.add_1_r, (IH outs') by
      (try done; by replace (S i + length l1) with (i + length (d1 :: l1))
                 by (simpl; lia)).
    done.
Qed.

(** X11. [calc_rdm] on a collection of datasets calls itself for each
    element in turn, with the same method, descriptors and prior, and with
    the noise as it is (absent, or one matrix) or the entry of the noise
    at the position of the element.  When all the calls return, the
    result is the concatenation of their RDMs in the order of the
    elements, and the collection holds the datasets as the calls left
    them.  When a call raises, or the noise has no entry for an element,
    the error is the error of [calc_rdm]: the elements behind it are not
    touched, the ones before it are as their calls left them. *)
Theorem calc_rdm_collection :
  (∀ y, noise ≠ NoiseScalar y) →
  (∀ l outs,
      Forall2 (λ id out,
          ∃ n, element_noise noise id.1 = Ok n
               ∧ calc_rdm np_sqrt np_log np_linalg_inv id.2 method
                   descriptor n cv_descriptor prior_lambda prior_weight
                 = (out.1, Ok out.2))
        (zip (seq 0 (length l)) l) outs →
      calc_rdm np_sqrt np_log np_linalg_inv (Collection l) method descriptor
               noise cv_descriptor prior_lambda prior_weight
      = (Collection outs.*1, concat outs.*2))
  ∧ (∀ l1 d l2 outs d' e,
      Forall2 (λ id out,
          ∃ n, element_noise noise id.1 = Ok n
               ∧ calc_rdm np_sqrt np_log np_linalg_inv id.2 method
                   descriptor n cv_descriptor prior_lambda prior_weight
                 = (out.1, Ok out.2))
        (zip (seq 0 (length l1)) l1) outs →
      (element_noise noise (length l1) = Raise e ∧ d' = d)
      ∨ (∃ n, element_noise noise (length l1) = Ok n
              ∧ calc_rdm np_sqrt np_log np_linalg_inv d method descriptor n
                  cv_descriptor prior_lambda prior_weight
                = (d', Raise e)) →
      calc_rdm np_sqrt np_log np_linalg_inv (Collection (l1 ++ d :: l2))
               method descriptor noise cv_descriptor prior_lambda
               prior_weight
      = (Collection (outs.*1 ++ d' :: l2), Raise e)).
Proof.
  intros Hnoise.
  assert (∀ l outs,
      Forall2 (λ id out,
          ∃ n, element_noise noise id.1 = Ok n
               ∧ calc_rdm np_sqrt np_log np_linalg_inv id.2 method
                   descriptor n cv_descriptor prior_lambda prior_weight
                 = (out.1, Ok out.2))
        (zip (seq 0 (length l)) l) outs →
      Forall2 (λ id out, call id.1 id.2 = Ok (out.1, Ok out.2))
        (zip (seq 0 (length l)) l) outs) as Hcalls.
  { intros l outs Hall. eapply Forall2_impl; [exact Hall|].
    intros [i d] [d' r] (n & Hn & Hcall). unfold element_call.
    simpl in *. by rewrite Hn, <- Hcall. }
  split.
  - intros l outs Hall%Hcalls. rewrite calc_rdm_collection_loop.
    by rewrite (collection_loop_returns l outs).
  - intros l1 d l2 outs d' e Hall%Hcalls Hd.
    rewrite calc_rdm_collection_loop.
    rewrite (collection_loop_raises l1 l2 d d' e outs); [done..|].
    unfold element_call. change (0 + length l1) with (length l1).
    destruct Hd as [[-> ->]|(n & -> & Hcall)]; [by left|right].
    cbn [mbind result_bind]. by rewrite Hcall.
Qed.

End collection.

Lemma calc_rdm_collection_witness :
  ∃ rdm,
    calc_rdm_euclid square_dataset None = Ok rdm
    ∧ calc_rdm (λ x, x) (λ x, x) Ok
        (Collection [Single square_dataset; Single square_dataset])
        "euclidean" None (NoiseList [NoNoise; NoNoise]) None (q 1 1)
        (q 1 10)
      = (Collection [Single square_dataset; Single square_dataset],
         concat [rdm; rdm])
    ∧ calc_rdm (λ x, x) (λ x, x) Ok
        (Collection [Single square_dataset; Single square_dataset])
        "euclidean" None (NoiseList [NoNoise]) None (q 1 1) (q 1 10)
      = (Collection [Single square_dataset; Single square_dataset],
         Raise IndexError).
Proof.
  eexists. split; [reflexivity|]. split.
  - eapply (proj1 (calc_rdm_collection (λ x, x) (λ x, x) Ok "euclidean" None
                    (NoiseList [NoNoise; NoNoise]) None (q 1 1) (q 1 10)
                    ltac:(discriminate))
             [Single square_dataset; Single square_dataset]
             [(Single square_dataset, _); (Single square_dataset, _)]).
    repeat constructor; exists NoNoise; split; reflexivity.
  - eapply (proj2 (calc_rdm_collection (λ x, x) (λ x, x) Ok "euclidean" None
                    (NoiseList [NoNoise]) None (q 1 1) (q 1 10)
                    ltac:(discriminate))
             [Single square_dataset] (Single square_dataset) []
             [(Single square_dataset, _)] (Single square_dataset)
             IndexError).
    + repeat constructor. exists NoNoise. split; reflexivity.
    + left. split; reflexivity.
Defined.

(** ** One pair of folds *)

Lemma crossnobis_single_entries (m1 m2 noise : ndarray2) :
  wf_array m2 → shape0 m1 = shape0 m2 →
  shape1 noise = shape1 m2 → shape0 noise = shape1 m1 →
  _calc_rdm_crossnobis_single m1 m2 noise
  = Ok (map (crossnobis_single_pair noise m1 m2)
            (canonical_pairs (shape0 m1))).
Proof.
  intros Hwf H0 Hn1 Hn0. unfold _calc_rdm_crossnobis_single.
  rewrite !pairwise_differences_rows. cbn [mbind result_bind].
  pose proof (matmul_transpose noise
                (Mat (shape1 m2)
                     (map (pair_difference m2) (canonical_pairs (shape0 m2))))
                (wf_pairwise_differences m2 Hwf) Hn1) as Hmul.
  destruct (np_matmul _ _) as [w|]; [|done].
  cbn [fmap result_fmap] in Hmul.
  assert (∀ u v : ndarray2, Ok u = Ok v → u = v) as Hinj
    by (by intros ?? [= ->]).
  apply Hinj in Hmul.
  cbn [mbind result_bind]. unfold einsum_kj_jk_k. rewrite Hmul.
  cbn [rows]. rewrite !map_fmap, <- list_fmap_compose, H0.
  rewrite einsum_maps by done. cbn [mbind result_bind]. f_equal.
  unfold vdiv. rewrite <- list_fmap_compose. by apply list_fmap_ext.
Qed.

(** X12. [_calc_rdm_crossnobis_single], the partial RDM of two folds with
    the patterns [m1] and [m2] (as many conditions in both, [m2]
    rectangular) and a precision of the shape [n_channel x n_channel]:
    the entry of the [k]-th pair [(i, j)] of the canonical enumeration is
    [(m1_i - m1_j) . P (m2_i - m2_j) / n_channel].  A precision with
    another number of columns than [m2] has channels raises
    [ValueError].  With the same patterns on both sides the entries are
    those of the Mahalanobis RDM of these patterns. *)
Theorem calc_rdm_crossnobis_single_pairs :
  (∀ m1 m2 noise,
      wf_array m2 → shape0 m1 = shape0 m2 →
      shape1 noise = shape1 m2 → shape0 noise = shape1 m1 →
      _calc_rdm_crossnobis_single m1 m2 noise
      = Ok (map (λ p, fdiv (dot (pair_difference m1 p)
                                (apply_noise noise (pair_difference m2 p)))
                           (fnat (shape1 m1)))
                (canonical_pairs (shape0 m1))))
  ∧ (∀ m1 m2 noise,
      shape1 noise ≠ shape1 m2 →
      _calc_rdm_crossnobis_single m1 m2 noise = Raise ValueError)
  ∧ (∀ dataset descriptor a x desc name,
      _parse_input dataset descriptor = Ok (x, desc, name) →
      wf_array (measurements dataset) →
      shape0 a = n_channel dataset → shape1 a = n_channel dataset →
      ∃ v rdm,
        _calc_rdm_crossnobis_single x x a = Ok v
        ∧ calc_rdm_mahalanobis dataset descriptor (NoiseMatrix a) = Ok rdm
        ∧ dissimilarities rdm = Arr2 [v]).
Proof.
  split; [|split].
  - apply crossnobis_single_entries.
  - intros m1 m2 noise Hne. unfold _calc_rdm_crossnobis_single.
    rewrite !pairwise_differences_rows. cbn [mbind result_bind].
    unfold np_matmul. rewrite shape0_transpose. cbn [shape1].
    by rewrite decide_False.
  - intros dataset descriptor a x desc name E Hwf Ha0 Ha1.
    destruct (parse_input_shape _ _ _ _ _ E) as [H0 H1].
    pose proof (parse_input_wf _ _ _ _ _ Hwf E) as Hx.
    destruct (calc_rdm_mahalanobis_entries dataset descriptor (NoiseMatrix a)
                x desc name E) as (rdm & Hrdm & Hd & _); [done..|].
    eexists _, rdm. split; [|split; [done|]].
    + apply crossnobis_single_entries; [done|done|congruence..].
    + by rewrite Hd, H0.
Qed.

Lemma calc_rdm_crossnobis_single_pairs_witness :
  _calc_rdm_crossnobis_single (Mat 1 [[q 1 1]; [q 5 1]])
                              (Mat 1 [[q 2 1]; [q 7 1]]) one_1x1
  = Ok (map (λ p, fdiv (dot (pair_difference (Mat 1 [[q 1 1]; [q 5 1]]) p)
                            (apply_noise one_1x1
                               (pair_difference
                                  (Mat 1 [[q 2 1]; [q 7 1]]) p)))
                       (fnat 1))
            (canonical_pairs 2))
  ∧ _calc_rdm_crossnobis_single (Mat 1 [[q 1 1]; [q 5 1]])
                                (Mat 1 [[q 2 1]; [q 7 1]]) identity2
    = Raise ValueError.
Proof.
  split.
  - apply (proj1 calc_rdm_crossnobis_single_pairs
             (Mat 1 [[q 1 1]; [q 5 1]]) (Mat 1 [[q 2 1]; [q 7 1]]) one_1x1).
    + apply (bool_decide_unpack _). vm_compute. exact I.
    + reflexivity.
    + reflexivity.
    + reflexivity.
  - apply (proj1 (proj2 calc_rdm_crossnobis_single_pairs)
             (Mat 1 [[q 1 1]; [q 5 1]]) (Mat 1 [[q 2 1]; [q 7 1]]) identity2).
    simpl. lia.
Defined.

(** ** The correlation RDM *)






(** ** The cross-validated correlation RDM *)



(** ** Crossnobis, leaving one fold out *)






(** ** The entries of the cross-validated RDMs *)






(** ** A common offset of the observations *)






(** ** [calc_rdm_movie] on one temporal dataset *)

(** X18. [calc_rdm_movie] on one temporal dataset: the dataset is binned
    when bins are given, split along the time descriptor, and each part
    is converted to a dataset and handed to [calc_rdm] with the method,
    the descriptor, the noise, the cross-validation descriptor and the
    prior of the caller.  When all these calls return, the result is the
    concatenation of their RDMs in the order of the time points, with the
    time points of the (binned) dataset as the RDM descriptor of the name
    [time_descriptor]; the first call that raises decides the error. *)
Theorem calc_rdm_movie_single (np_sqrt np_log : float → float)
    (np_linalg_inv : ndarray2 → result ndarray2)
    (dataset : TemporalDataset) (method : string)
    (descriptor : option string) (noise : noise_spec)
    (cv_descriptor : option string) (prior_lambda prior_weight : float)
    (time_descriptor : string) (bins : option (list (list float)))
    (binned : TemporalDataset) (parts : list TemporalDataset)
    (time : list float) :
  match bins with
  | Some bins => bin_time dataset time_descriptor bins
  | None => Ok dataset
  end = Ok binned →
  split_time binned time_descriptor = Ok parts →
  time_descriptor_of binned time_descriptor = Ok time →
  calc_rdm_movie np_sqrt np_log np_linalg_inv (TSingle dataset) method
                 descriptor noise cv_descriptor prior_lambda prior_weight
                 time_descriptor bins
  = (rdms ← mapM (λ dat,
         dat_single ← convert_to_dataset dat time_descriptor;
         (calc_rdm np_sqrt np_log np_linalg_inv (Single dat_single) method
                   descriptor noise cv_descriptor prior_lambda
                   prior_weight).2) parts;
     rdm ← concat rdms;
     Ok (set_rdm_descriptor time_descriptor (PFloats time) rdm)).
Proof.
  intros Hbin Hsplit Htime. cbn [calc_rdm_movie].
  assert (∀ (f : TemporalDataset → result RDMs) l acc,
            for_in l (λ dat rdms, rdm ← f dat; Ok (rdms ++ [rdm])) acc
            = (ys ← mapM f l; Ok (acc ++ ys))) as Hloop.
  { intros f l. induction l as [|x l IH]; intros acc; simpl.
    - by rewrite app_nil_r.
    - destruct (f x) as [y|]; simpl; [|done]. rewrite IH.
      destruct (mapM f l) as [ys|]; simpl; [|done].
      by rewrite <- app_assoc. }
  destruct bins as [b|].
  - rewrite Hbin. cbn [mbind result_bind]. rewrite Hsplit, Htime.
    cbn [mbind result_bind].
    match goal with
    | |- context [for_in parts ?body []] =>
        replace (for_in parts body [])
          with (for_in parts
                  (λ dat rdms,
                     rdm ← (dat_single ← convert_to_dataset dat
                                            time_descriptor;
                            (calc_rdm np_sqrt np_log np_linalg_inv
                               (Single dat_single) method descriptor noise
                               cv_descriptor prior_lambda prior_weight).2);
                     Ok (rdms ++ [rdm])) [])
    end.
    + rewrite Hloop. by destruct (mapM _ parts).
    + apply for_in_ext. intros dat rdms _.
      by destruct (convert_to_dataset dat time_descriptor).
  - injection Hbin as ->. rewrite Hsplit, Htime.
    cbn [mbind result_bind].
    match goal with
    | |- context [for_in parts ?body []] =>
        replace (for_in parts body [])
          with (for_in parts
                  (λ dat rdms,
                     rdm ← (dat_single ← convert_to_dataset dat
                                            time_descriptor;
                            (calc_rdm np_sqrt np_log np_linalg_inv
                               (Single dat_single) method descriptor noise
                               cv_descriptor prior_lambda prior_weight).2);
                     Ok (rdms ++ [rdm])) [])
    end.
    + rewrite Hloop. by destruct (mapM _ parts).
    + apply for_in_ext. intros dat rdms _.
      by destruct (convert_to_dataset dat time_descriptor).
Qed.

Lemma calc_rdm_movie_single_witness :
  ∃ parts,
    split_time movie_dataset "time" = Ok parts
    ∧ calc_rdm_movie (λ x, x) (λ x, x) Ok (TSingle movie_dataset)
        "euclidean" (Some "conds") NoNoise None (q 1 1) (q 1 10) "time" None
      = (rdms ← mapM (λ dat,
             dat_single ← convert_to_dataset dat "time";
             (calc_rdm (λ x, x) (λ x, x) Ok (Single dat_single) "euclidean"
                       (Some "conds") NoNoise None (q 1 1) (q 1 10)).2)
           parts;
         rdm ← concat rdms;
         Ok (set_rdm_descriptor "time" (PFloats [q 0 1; q 1 1]) rdm)).
Proof.
  eexists. split; [reflexivity|].
  apply (calc_rdm_movie_single (λ x, x) (λ x, x) Ok movie_dataset
           "euclidean" (Some "conds") NoNoise None (q 1 1) (q 1 10) "time"
           None movie_dataset).
  - reflexivity.
  - reflexivity.
  - reflexivity.
Defined.

(** ** Crossnobis with the default folds *)













(** ** Equal patterns *)

Lemma vsub_same (v : list Qc) :
  vsub (Some <$> v) (Some <$> v) = Some <$> (replicate (length v) 0%Qc).
Proof.
  induction v as [|a v IH]; [done|]. unfold vsub in *.
  rewrite !fmap_cons. cbn [zip_with length replicate].
  rewrite fmap_cons, IH. simpl. do 2 f_equal; ring.
Qed.

Lemma fsum_squares_zero (n : nat) :
  fsum (map (λ d, fmul d d) (Some <$> replicate n 0%Qc)) = Some 0%Qc.
Proof.
  induction n as [|n IH]; [apply fconst_0|].
  cbn [replicate]. rewrite fmap_cons. cbn [map fsum foldr].
  unfold fsum in IH. rewrite IH. simpl. f_equal; ring.
Qed.

(** X20. Two conditions with the same pattern of numbers have the
    Euclidean dissimilarity [0]: in the RDM of [calc_rdm_euclid], for a
    dataset with at least one channel, the entry of a pair [(i, j)] of
    the canonical enumeration whose patterns are equal is [0]. *)
Theorem calc_rdm_euclid_equal_patterns (dataset : Dataset)
    (descriptor : option string) (x : ndarray2) (desc : list Z)
    (name : string) :
  _parse_input dataset descriptor = Ok (x, desc, name) →
  0 < n_channel dataset →
  ∃ rdm v,
    calc_rdm_euclid dataset descriptor = Ok rdm
    ∧ dissimilarities rdm = Arr2 [v]
    ∧ ∀ k i j (p : list Qc),
        canonical_pairs (length desc) !! k = Some (i, j) →
        row x i = Some <$> p → row x j = Some <$> p →
        v !! k = Some (Some 0%Qc).
Proof.
  intros E Hn.
  destruct (parse_input_shape _ _ _ _ _ E) as [H0 H1].
  rewrite (calc_rdm_euclid_patterns _ _ _ _ _ E).
  eexists _, _. split; [done|]. split; [done|].
  intros k i j p Hk Hi Hj. rewrite H0, list_lookup_fmap, Hk. simpl.
  f_equal. unfold mean_squared_difference.
  rewrite Hi, Hj, vsub_same, fsum_squares_zero, H1.
  unfold fdiv, fnat, fconst. simpl. rewrite decide_False.
  - f_equal; unfold Qcdiv; ring.
  - rewrite <- Z2Qc_inj_0. intros Heq%Z2Qc_inj. lia.
Qed.

Lemma calc_rdm_euclid_equal_patterns_witness :
  ∃ rdm v,
    calc_rdm_euclid
      {| measurements := Mat 2 [[q 1 1; q 2 1]; [q 3 1; q 5 1];
                                [q 1 1; q 2 1]];
         descriptors := ∅; obs_descriptors := ∅ |} None = Ok rdm
    ∧ dissimilarities rdm = Arr2 [v]
    ∧ ∀ k i j (p : list Qc),
        canonical_pairs (length [0; 1; 2]%Z) !! k = Some (i, j) →
        row (Mat 2 [[q 1 1; q 2 1]; [q 3 1; q 5 1]; [q 1 1; q 2 1]]) i
        = Some <$> p →
        row (Mat 2 [[q 1 1; q 2 1]; [q 3 1; q 5 1]; [q 1 1; q 2 1]]) j
        = Some <$> p →
        v !! k = Some (Some 0%Qc).
Proof.
  apply (calc_rdm_euclid_equal_patterns _ None _ [0; 1; 2]%Z "pattern").
  - reflexivity.
  - unfold n_channel. simpl. lia.
Defined.

(** ** What [calc_rdm] leaves of a collection *)


Section frame.

Variable np_sqrt : float → float.
Variable np_log : float → float.
Variable np_linalg_inv : ndarray2 → result ndarray2.
Variable method : string.
Variable descriptor : option string.
Variable cv_descriptor : option string.
Variable prior_lambda prior_weight : float.



End frame.


(** ** The cross-validated magnitude, in general *)

Lemma for_in_setitem_from {B} (f : nat → B)
    (body : nat → list B → result (list B)) (m : nat) (seen rest : list B) :
  (∀ i est, length seen ≤ i < length seen + m →
            body i est = setitem est i (f i)) →
  length rest = m →
  for_in (seq (length seen) m) body (seen ++ rest)
  = Ok (seen ++ (f <$> seq (length seen) m)).
Proof.
  revert seen rest. induction m as [|m IH]; intros seen rest Hbody Hlen.
  - destruct rest; [|done]. by simpl.
  - destruct rest as [|r rest]; [done|]. cbn [seq for_in].
    rewrite Hbody by lia. unfold setitem.
    rewrite decide_True by (rewrite length_app; simpl; lia).
    cbn [mbind result_bind].
    replace (<[length seen:=f (length seen)]> (seen ++ r :: rest))
      with ((seen ++ [f (length seen)]) ++ rest); cycle 1.
    { rewrite insert_app_r_alt, Nat.sub_diag by lia. simpl.
      by rewrite <- app_assoc. }
    specialize (IH (seen ++ [f (length seen)]) rest).
    rewrite length_app in IH. simpl in IH. rewrite Nat.add_1_r in IH.
    rewrite IH.
    + by rewrite <- app_assoc.
    + intros i est Hi. apply Hbody. lia.
    + simpl in Hlen. lia.
Qed.

Lemma filter_all {A} (P : A → Prop) `{∀ x, Decision (P x)} (l : list A) :
  Forall P l → filter P l = l.
Proof.
  induction 1 as [|x l Hx Hl IH]; [done|].
  by rewrite filter_cons, decide_True, IH.
Qed.

Lemma filter_seq_ne (i n : nat) :
  i < n →
  filter (λ j, j ≠ i) (seq 0 n) = seq 0 i ++ seq (S i) (n - S i).
Proof.
  intros Hi. replace n with (i + (1 + (n - S i))) at 1 by lia.
  rewrite !seq_app, !filter_app. cbn [seq Nat.add].
  rewrite filter_cons, filter_nil.
  destruct (decide (i ≠ i)) as [?|_]; [done|]. cbn [app].
  rewrite Nat.add_1_r. f_equal.
  - apply filter_all. apply Forall_forall.
    intros j Hj%elem_of_seq. lia.
  - apply filter_all. apply Forall_forall.
    intros j Hj%elem_of_seq. lia.
Qed.

Lemma take_idx_seq {A} (l1 l2 l3 : list A) :
  take_idx (seq (length l1) (length l2)) (l1 ++ l2 ++ l3) = l2.
Proof.
  unfold take_idx. revert l1. induction l2 as [|x l2 IH]; intros l1; [done|].
  cbn [length seq omap list_omap app].
  rewrite list_lookup_middle by done.
  specialize (IH (l1 ++ [x])).
  rewrite length_app, <- app_assoc in IH. simpl in IH.
  rewrite Nat.add_1_r in IH. by rewrite IH.
Qed.

Lemma take_idx_others {A} (l : list A) (i : nat) :
  i < length l →
  take_idx (filter (λ j, j ≠ i) (seq 0 (length l))) l = delete i l.
Proof.
  intros Hi. rewrite filter_seq_ne by done.
  destruct (lookup_lt_is_Some_2 l i Hi) as [x Hx].
  rewrite delete_take_drop.
  pose proof (take_drop_middle l i x Hx) as Hl.
  set (l1 := take i l) in *. set (l2 := drop (S i) l) in *.
  assert (length l1 = i) as H1 by (unfold l1; rewrite length_take; lia).
  assert (length l2 = length l - S i) as H2
    by (unfold l2; by rewrite length_drop).
  unfold take_idx. rewrite omap_app. f_equal.
  - rewrite <- Hl, <- H1.
    apply (take_idx_seq [] l1 (x :: l2)).
  - rewrite <- H2, <- Hl. rewrite <- H1 at 1.
    replace (S (length l1)) with (length (l1 ++ [x]))
      by (rewrite length_app; simpl; lia).
    replace (l1 ++ x :: l2) with ((l1 ++ [x]) ++ l2 ++ [])
      by (by rewrite app_nil_r, <- app_assoc).
    apply take_idx_seq.
Qed.

(** X22. [_calc_magnitude_cv] returns [sign(s) * sqrt(|s|)], where [s] is
    the mean, over the observations, of the inner product of the
    observation and the mean of all the other observations (each with
    its own mean over the channels subtracted when [subtract_mean] is
    set).  The estimate [s] can be negative, and so can the magnitude:
    for a negative [s] it is [-sqrt(-s)]. *)
Theorem calc_magnitude_cv_estimate (np_sqrt : float → float)
    (measurements : ndarray2) (subtract_mean : bool) :
  _calc_magnitude_cv np_sqrt measurements subtract_mean
  = Ok (fmul (fsign (squared_magnitude measurements subtract_mean))
             (np_sqrt (fabs (squared_magnitude measurements subtract_mean))))
  ∧ ∀ s, squared_magnitude measurements subtract_mean = Some s →
         (s < 0)%Qc →
         _calc_magnitude_cv np_sqrt measurements subtract_mean
         = Ok (fmul (Some (- 1)%Qc) (np_sqrt (Some (- s)%Qc))).
Proof.
  assert (_calc_magnitude_cv np_sqrt measurements subtract_mean
          = Ok (fmul (fsign (squared_magnitude measurements subtract_mean))
                  (np_sqrt
                     (fabs (squared_magnitude measurements subtract_mean)))))
    as Hmag.
  { unfold _calc_magnitude_cv, squared_magnitude.
    match goal with
    | |- context [for_in ?l ?body ?est] =>
        pose proof (for_in_setitem_from
               (λ i, dot (centered subtract_mean (row measurements i))
                         (centered subtract_mean
                            (np_mean_axis0 (shape1 measurements)
                               (delete i (rows measurements)))))
               body (shape0 measurements) [] est) as Hloop
    end.
    cbn [length app] in Hloop. rewrite Hloop.
    - done.
    - intros i est Hi. simpl in Hi. unfold shape0 in *.
      rewrite getitem_total by lia. cbn [mbind result_bind].
      rewrite take_idx_others by lia. done.
    - apply length_replicate. }
  split; [done|]. intros s Hs Hneg. rewrite Hmag, Hs.
  unfold fsign, fabs. cbn [mbind option_bind].
  rewrite decide_False by (by apply Qcle_not_lt, Qclt_le_weak).
  by rewrite !decide_True by done.
Qed.

Lemma calc_magnitude_cv_estimate_witness :
  squared_magnitude (Mat 1 [[q 1 1]; [q (-1) 1]]) false = Some (Q2Qc (-1 # 1))
  ∧ _calc_magnitude_cv (λ x, x) (Mat 1 [[q 1 1]; [q (-1) 1]]) false
    = Ok (fmul (Some (- 1)%Qc) (Some (- Q2Qc (-1 # 1))%Qc)).
Proof.
  assert (squared_magnitude (Mat 1 [[q 1 1]; [q (-1) 1]]) false
          = Some (Q2Qc (-1 # 1))) as Hs
    by (apply (bool_decide_unpack _); vm_compute; exact I).
  split; [exact Hs|].
  apply (proj2 (calc_magnitude_cv_estimate (λ x, x)
                  (Mat 1 [[q 1 1]; [q (-1) 1]]) false) _ Hs).
  apply (bool_decide_unpack _). vm_compute. exact I.
Defined.
